(** * k8s-performance-analyzer: the metrics sampler and the deployment aggregator

    A shallow embedding of [collectMetrics], [getDeploymentForPod] and
    [aggregateDeploymentMetrics] of [main.go], and the properties of the
    specification that concern them.

    Conventions.
    - Go's [int64] is [Z]; the only arithmetic that can leave the range is the
      running sum of [aggregateDeploymentMetrics], whose wrap-around is
      written out with [wrap64].  Counters bounded by the length of a slice
      ([TotalPods], [PodsWithoutLimits], [len]) cannot overflow and are plain [Z].
    - Go maps are [gmap]s.  Every map value of the program is a pointer to a
      record that is reachable from one key only, so a map of records is a
      faithful picture of the store.
    - The cluster and the Metrics Server are oracles; the calls the program
      makes, its waits and its console output are recorded in a trace. *)

From Stdlib Require Import ZArith Lia Permutation.
From stdpp Require Import base gmap strings list fin_maps.

Open Scope string_scope.
Open Scope list_scope.
Open Scope Z_scope.

(** ** Machine integers *)

(** Reduction of an integer into the [int64] range (two's complement). *)
Definition wrap64 (z : Z) : Z := (z + 2 ^ 63) mod 2 ^ 64 - 2 ^ 63.

(** ** The accumulated snapshot ([MetricsData]) *)

Record ContainerMetrics := mkContainerMetrics {
  cm_MaxCPU : Z;
  cm_MaxMemory : Z
}.

Record PodMetrics := mkPodMetrics {
  pm_MaxCPU : Z;
  pm_MaxMemory : Z;
  pm_Namespace : string;
  pm_Containers : gmap string ContainerMetrics
}.

Record NodeMetrics := mkNodeMetrics {
  nm_MaxCPU : Z;
  nm_MaxMemory : Z
}.

Record MetricsData := mkMetricsData {
  md_PodMetrics : gmap string PodMetrics;
  md_NodeMetrics : gmap string NodeMetrics
}.

(** [&MetricsData{PodMetrics: make(...), NodeMetrics: make(...)}] *)
Definition newMetricsData : MetricsData := mkMetricsData ∅ ∅.

(** ** What the Metrics Server returns *)

(** One container of a [PodMetrics] item of the metrics API:
    [Usage.Cpu().MilliValue()] and [Usage.Memory().Value()]. *)
Record ContainerUsage := mkContainerUsage {
  cu_Name : string;
  cu_Cpu : Z;
  cu_Memory : Z
}.

Record PodMetricsItem := mkPodMetricsItem {
  pi_Name : string;
  pi_Namespace : string;
  pi_Containers : list ContainerUsage
}.

Record NodeMetricsItem := mkNodeMetricsItem {
  ni_Name : string;
  ni_Cpu : Z;
  ni_Memory : Z
}.

Inductive result (E A : Type) : Type :=
  | Ok (a : A)
  | Err (e : E).
Arguments Ok {E A} a.
Arguments Err {E A} e.

(** The Metrics Server as the program sees it: the answer to the [n]-th call
    of each of the two list endpoints (counted from 0, per endpoint). *)
Record MetricsClient := mkMetricsClient {
  NodeMetricsesList : nat -> result string (list NodeMetricsItem);
  PodMetricsesList : nat -> result string (list PodMetricsItem)
}.

(** ** Effects: calls, waits and console output *)

Inductive Fetch := PodFetch | NodeFetch.

Inductive Event :=
  | CalledNodeMetrics
  | CalledPodMetrics
  | Slept (d : Z)
  | PrintedBanner (period : Z)
  | PrintedProgress (i n : Z)
  | PrintedWarning (f : Fetch).

(** The trace lists the events most recent first. *)
Record World := mkWorld {
  nodeCalls : nat;
  podCalls : nat;
  trace : list Event
}.

Definition initialWorld : World := mkWorld 0 0 [].

Definition IO (A : Type) : Type := World -> A * World.

#[export] Instance IO_ret : MRet IO := λ A a w, (a, w).
#[export] Instance IO_bind : MBind IO :=
  λ A B f m w, let '(a, w') := m w in f a w'.

Definition emit (e : Event) : IO unit :=
  λ w, (tt, mkWorld (nodeCalls w) (podCalls w) (e :: trace w)).

Definition listNodeMetrics (mc : MetricsClient) : IO (result string (list NodeMetricsItem)) :=
  λ w, (NodeMetricsesList mc (nodeCalls w),
        mkWorld (S (nodeCalls w)) (podCalls w) (CalledNodeMetrics :: trace w)).

Definition listPodMetrics (mc : MetricsClient) : IO (result string (list PodMetricsItem)) :=
  λ w, (PodMetricsesList mc (podCalls w),
        mkWorld (nodeCalls w) (S (podCalls w)) (CalledPodMetrics :: trace w)).

(** ** The sampler *)

(** [checkMetricsServer]: one list call on the node endpoint; its error is
    wrapped in the "Metrics Server" message. *)
Inductive error :=
  | MetricsServerError (cause : string).

Definition checkMetricsServer (mc : MetricsClient) : IO (option error) :=
  r ← listNodeMetrics mc;
  match r with
  | Err e => mret (Some (MetricsServerError e))
  | Ok _ => mret None
  end.

(** Lines 131-143: one container of one pod item. The entry is created with
    zero maxima when it is missing, then raised to the observed values. *)
Definition observeContainer (cs : gmap string ContainerMetrics) (c : ContainerUsage)
    : gmap string ContainerMetrics :=
  let cur := default (mkContainerMetrics 0 0) (cs !! cu_Name c) in
  let cpu := if cm_MaxCPU cur <? cu_Cpu c then cu_Cpu c else cm_MaxCPU cur in
  let mem := if cm_MaxMemory cur <? cu_Memory c then cu_Memory c else cm_MaxMemory cur in
  <[cu_Name c := mkContainerMetrics cpu mem]> cs.

(** Lines 123-144: one pod item. The entry is keyed by the pod's name; a new
    entry takes the namespace of the item that creates it. *)
Definition observePod (pods : gmap string PodMetrics) (p : PodMetricsItem)
    : gmap string PodMetrics :=
  let cur := default (mkPodMetrics 0 0 (pi_Namespace p) ∅) (pods !! pi_Name p) in
  <[pi_Name p := mkPodMetrics (pm_MaxCPU cur) (pm_MaxMemory cur) (pm_Namespace cur)
                   (foldl observeContainer (pm_Containers cur) (pi_Containers p))]> pods.

(** Lines 153-165: one node item. *)
Definition observeNode (nodes : gmap string NodeMetrics) (n : NodeMetricsItem)
    : gmap string NodeMetrics :=
  let cur := default (mkNodeMetrics 0 0) (nodes !! ni_Name n) in
  let cpu := if nm_MaxCPU cur <? ni_Cpu n then ni_Cpu n else nm_MaxCPU cur in
  let mem := if nm_MaxMemory cur <? ni_Memory n then ni_Memory n else nm_MaxMemory cur in
  <[ni_Name n := mkNodeMetrics cpu mem]> nodes.

Definition foldPodItems (m : MetricsData) (items : list PodMetricsItem) : MetricsData :=
  mkMetricsData (foldl observePod (md_PodMetrics m) items) (md_NodeMetrics m).

Definition foldNodeItems (m : MetricsData) (items : list NodeMetricsItem) : MetricsData :=
  mkMetricsData (md_PodMetrics m) (foldl observeNode (md_NodeMetrics m) items).

(** [30 * time.Second], in nanoseconds. *)
Definition interval : Z := 30 * 1000000000.

(** The body of the [for] loop, lines 114-167. Each [continue] leaves the
    body at once, before [time.Sleep]. *)
Definition iteration (mc : MetricsClient) (i iterations : Z) (metrics : MetricsData)
    : IO MetricsData :=
  _ ← emit (PrintedProgress (i + 1) iterations);
  podMetrics ← listPodMetrics mc;
  match podMetrics with
  | Err _ => _ ← emit (PrintedWarning PodFetch); mret metrics
  | Ok podItems =>
      let metrics1 := foldPodItems metrics podItems in
      nodeMetrics ← listNodeMetrics mc;
      match nodeMetrics with
      | Err _ => _ ← emit (PrintedWarning NodeFetch); mret metrics1
      | Ok nodeItems =>
          let metrics2 := foldNodeItems metrics1 nodeItems in
          _ ← emit (Slept interval);
          mret metrics2
      end
  end.

(** [for i := 0; i < iterations; i++]: [n] is the number of rounds left. *)
Fixpoint samplingLoop (mc : MetricsClient) (n : nat) (i iterations : Z)
    (metrics : MetricsData) : IO MetricsData :=
  match n with
  | O => mret metrics
  | S n' =>
      metrics' ← iteration mc i iterations metrics;
      samplingLoop mc n' (i + 1) iterations metrics'
  end.

(** [int(period / interval)]: Go's integer division truncates. *)
Definition iterationsOf (period : Z) : Z := Z.quot period interval.

(** [collectMetrics]. [Err] stands for the return [(nil, err)]. *)
Definition collectMetrics (mc : MetricsClient) (period : Z)
    : IO (result error MetricsData) :=
  let metrics := newMetricsData in
  unavailable ← checkMetricsServer mc;
  match unavailable with
  | Some err => mret (Err err)
  | None =>
      let iterations := iterationsOf period in
      _ ← emit (PrintedBanner period);
      metrics' ← samplingLoop mc (Z.to_nat iterations) 0 iterations metrics;
      mret (Ok metrics')
  end.

(** ** Cluster objects *)

Record OwnerReference := mkOwnerReference {
  or_Kind : string;
  or_Name : string
}.

(** A [ResourceList] maps a resource name to a quantity. Only whether a
    quantity is zero matters here, so a quantity is its value in the smallest
    unit. *)
Record Container := mkContainer {
  c_Name : string;
  c_Limits : gmap string Z
}.

Record Pod := mkPod {
  p_Name : string;
  p_Namespace : string;
  p_OwnerReferences : list OwnerReference;
  p_Containers : list Container
}.

(** [clientset.AppsV1().ReplicaSets(namespace).Get(name)], reduced to the
    owner references of the replica set it returns. The cluster is taken to
    be still while one aggregation runs. *)
Record Clientset := mkClientset {
  ReplicaSetsGet : string -> string -> result string (list OwnerReference)
}.

(** [rl.Cpu()] and [rl.Memory()]: the quantity stored under the name, or a
    zero quantity when there is none. *)
Definition Cpu (rl : gmap string Z) : Z := default 0 (rl !! "cpu").
Definition Memory (rl : gmap string Z) : Z := default 0 (rl !! "memory").
Definition IsZero (q : Z) : bool := q =? 0.

Record DeploymentMetrics := mkDeploymentMetrics {
  dm_Name : string;
  dm_Namespace : string;
  dm_Pods : list string;
  dm_MaxCPU : Z;
  dm_MaxMemory : Z;
  dm_AvgCPU : Z;
  dm_AvgMemory : Z;
  dm_TotalPods : Z;
  dm_PodsWithoutLimits : Z;
  dm_Recommendations : list string
}.

(** [&DeploymentMetrics{Name: ..., Namespace: ..., Pods: make([]string, 0)}] *)
Definition newDeploymentMetrics (name namespace : string) : DeploymentMetrics :=
  mkDeploymentMetrics name namespace [] 0 0 0 0 0 0 [].

Definition addPodName (dm : DeploymentMetrics) (pod : string) : DeploymentMetrics :=
  mkDeploymentMetrics (dm_Name dm) (dm_Namespace dm) (dm_Pods dm ++ [pod])
    (dm_MaxCPU dm) (dm_MaxMemory dm) (dm_AvgCPU dm) (dm_AvgMemory dm)
    (dm_TotalPods dm + 1) (dm_PodsWithoutLimits dm) (dm_Recommendations dm).

Definition incrPodsWithoutLimits (dm : DeploymentMetrics) : DeploymentMetrics :=
  mkDeploymentMetrics (dm_Name dm) (dm_Namespace dm) (dm_Pods dm)
    (dm_MaxCPU dm) (dm_MaxMemory dm) (dm_AvgCPU dm) (dm_AvgMemory dm)
    (dm_TotalPods dm) (dm_PodsWithoutLimits dm + 1) (dm_Recommendations dm).

Definition setMax (dm : DeploymentMetrics) (cpu mem : Z) : DeploymentMetrics :=
  mkDeploymentMetrics (dm_Name dm) (dm_Namespace dm) (dm_Pods dm)
    cpu mem (dm_AvgCPU dm) (dm_AvgMemory dm)
    (dm_TotalPods dm) (dm_PodsWithoutLimits dm) (dm_Recommendations dm).

Definition setAvg (dm : DeploymentMetrics) (cpu mem : Z) : DeploymentMetrics :=
  mkDeploymentMetrics (dm_Name dm) (dm_Namespace dm) (dm_Pods dm)
    (dm_MaxCPU dm) (dm_MaxMemory dm) cpu mem
    (dm_TotalPods dm) (dm_PodsWithoutLimits dm) (dm_Recommendations dm).

(** ** The ownership resolver *)

(** Lines 182-186: the first owner of kind "Deployment" of a replica set. *)
Fixpoint deploymentOwner (rsOwners : list OwnerReference) : option string :=
  match rsOwners with
  | [] => None
  | rsOwner :: rest =>
      if decide (or_Kind rsOwner = "Deployment") then Some (or_Name rsOwner)
      else deploymentOwner rest
  end.

(** Lines 175-189: the scan of the pod's owner references. The empty string
    ([EmptyString]) is what the function returns for "no deployment". *)
Fixpoint scanOwners (cs : Clientset) (namespace : string) (owners : list OwnerReference)
    : string :=
  match owners with
  | [] => EmptyString
  | owner :: rest =>
      if decide (or_Kind owner = "ReplicaSet") then
        match ReplicaSetsGet cs namespace (or_Name owner) with
        | Err _ => scanOwners cs namespace rest
        | Ok rsOwners =>
            match deploymentOwner rsOwners with
            | Some name => name
            | None => scanOwners cs namespace rest
            end
        end
      else scanOwners cs namespace rest
  end.

(** [getDeploymentForPod]: the error it returns is always [nil]. *)
Definition getDeploymentForPod (cs : Clientset) (pod : Pod) : string * option string :=
  (scanOwners cs (p_Namespace pod) (p_OwnerReferences pod), None).

(** ** The aggregator *)

(** The outcome of code that may stop on a run-time panic. *)
Inductive run (A : Type) : Type :=
  | Done (a : A)
  | Panic.
Arguments Done {A} a.
Arguments Panic {A}.

(** Lines 220-226: the loop that looks for a container without limits. *)
Fixpoint hasLimits (containers : list Container) : bool :=
  match containers with
  | [] => true
  | container :: rest =>
      if IsZero (Cpu (c_Limits container)) || IsZero (Memory (c_Limits container))
      then false
      else hasLimits rest
  end.

(** Lines 215-229: membership, pod count and the without-limits count. *)
Definition countPod (dm : DeploymentMetrics) (pod : Pod) : DeploymentMetrics :=
  let dm := addPodName dm (p_Name pod) in
  if hasLimits (p_Containers pod) then dm else incrPodsWithoutLimits dm.

(** The state of the loop over the containers of a pod entry:
    the aggregate, [totalCPU] and [totalMemory]. *)
Record usageLoop := mkUsageLoop {
  ul_dm : DeploymentMetrics;
  ul_totalCPU : Z;
  ul_totalMemory : Z
}.

(** Lines 235-242: one container entry. *)
Definition addContainerMetrics (st : usageLoop) (containerMetrics : ContainerMetrics)
    : usageLoop :=
  let dm := ul_dm st in
  let cpu := if dm_MaxCPU dm <? cm_MaxCPU containerMetrics
             then cm_MaxCPU containerMetrics else dm_MaxCPU dm in
  let mem := if dm_MaxMemory dm <? cm_MaxMemory containerMetrics
             then cm_MaxMemory containerMetrics else dm_MaxMemory dm in
  mkUsageLoop (setMax dm cpu mem)
    (wrap64 (ul_totalCPU st + cm_MaxCPU containerMetrics))
    (wrap64 (ul_totalMemory st + cm_MaxMemory containerMetrics)).

(** Lines 233-245: the pod's entry folded into the aggregate. The totals
    start at zero for every pod; the division panics on an entry without
    containers. The order in which Go ranges over the map does not show in
    the result (see [foldContainers_order]). *)
Definition foldPodUsage (dm : DeploymentMetrics) (podMetrics : PodMetrics)
    : run DeploymentMetrics :=
  let st := foldl addContainerMetrics (mkUsageLoop dm 0 0)
              (map_to_list (pm_Containers podMetrics)).*2 in
  let n := Z.of_nat (size (pm_Containers podMetrics)) in
  if n =? 0 then Panic
  else Done (setAvg (ul_dm st) (Z.quot (ul_totalCPU st) n) (Z.quot (ul_totalMemory st) n)).

(** [fmt.Sprintf("%s/%s", namespace, deploymentName)] *)
Definition deploymentKey (namespace deploymentName : string) : string :=
  namespace +:+ "/" +:+ deploymentName.

(** The body of the loop over the pods, lines 196-246. *)
Definition aggregatePod (cs : Clientset) (metrics : MetricsData)
    (deploymentMetrics : gmap string DeploymentMetrics) (pod : Pod)
    : run (gmap string DeploymentMetrics) :=
  let '(deploymentName, err) := getDeploymentForPod cs pod in
  match err with
  | Some _ => Done deploymentMetrics
  | None =>
      if decide (deploymentName = EmptyString) then Done deploymentMetrics
      else
        let key := deploymentKey (p_Namespace pod) deploymentName in
        let dm := default (newDeploymentMetrics deploymentName (p_Namespace pod))
                    (deploymentMetrics !! key) in
        let dm := countPod dm pod in
        match md_PodMetrics metrics !! p_Name pod with
        | None => Done (<[key := dm]> deploymentMetrics)
        | Some podMetrics =>
            match foldPodUsage dm podMetrics with
            | Panic => Panic
            | Done dm' => Done (<[key := dm']> deploymentMetrics)
            end
        end
  end.

Fixpoint aggregateLoop (cs : Clientset) (metrics : MetricsData)
    (deploymentMetrics : gmap string DeploymentMetrics) (pods : list Pod)
    : run (gmap string DeploymentMetrics) :=
  match pods with
  | [] => Done deploymentMetrics
  | pod :: rest =>
      match aggregatePod cs metrics deploymentMetrics pod with
      | Panic => Panic
      | Done deploymentMetrics' => aggregateLoop cs metrics deploymentMetrics' rest
      end
  end.

Definition aggregateDeploymentMetrics (cs : Clientset) (pods : list Pod)
    (metrics : MetricsData) : run (gmap string DeploymentMetrics) :=
  aggregateLoop cs metrics ∅ pods.

(** ** The caller ([main], lines 373-382) *)

(** What [main] prints on the error path of the collection. *)
Inductive Notice :=
  | WarnedCollection (err : error)
  | ContinuingWithoutMetrics.

(** The snapshot [main] goes on with: the one collected, or, when
    [collectMetrics] returns an error, a new empty one after two notices. *)
Definition mainCollect (mc : MetricsClient) (period : Z) (w : World)
    : MetricsData * World * list Notice :=
  let '(collected, w') := collectMetrics mc period w in
  match collected with
  | Err err => (newMetricsData, w', [WarnedCollection err; ContinuingWithoutMetrics])
  | Ok metrics => (metrics, w', [])
  end.

(** ** File names ([sanitizeFilename]) *)

(** A Go string is a sequence of bytes; [byteOf] is the value of a byte. *)
Definition byteOf (c : Ascii.ascii) : N := Ascii.N_of_ascii c.

Definition inRange (lo hi : N) (c : Ascii.ascii) : bool :=
  ((lo <=? byteOf c) && (byteOf c <=? hi))%N.

Definition hyphen : Ascii.ascii := Ascii.ascii_of_N 45.

Definition isHyphen (c : Ascii.ascii) : bool := (byteOf c =? 45)%N.

(** The characters the function never replaces nor removes:
    letters, digits, underscore and dot. *)
Definition isWordChar (c : Ascii.ascii) : bool :=
  inRange 97 122 c || inRange 65 90 c || inRange 48 57 c
  || (byteOf c =? 95)%N || (byteOf c =? 46)%N.

(** The class [a-zA-Z0-9-_.] of the first regular expression. *)
Definition isSafe (c : Ascii.ascii) : bool := isWordChar c || isHyphen c.

(** [utf8.RuneSelf]: bytes below it are the one-byte runes. *)
Definition isASCII (c : Ascii.ascii) : bool := (byteOf c <? 128)%N.

(** Go's regexp reads its input rune by rune, as [utf8.DecodeRuneInString]
    does: the bytes a leading byte [b0] accepts as second byte, and the
    continuation bytes. *)
Definition isContinuation (c : Ascii.ascii) : bool := inRange 128 191 c.

Definition acceptsSecond (b0 b1 : Ascii.ascii) : bool :=
  if (byteOf b0 =? 224)%N then inRange 160 191 b1
  else if (byteOf b0 =? 237)%N then inRange 128 159 b1
  else if (byteOf b0 =? 240)%N then inRange 144 191 b1
  else if (byteOf b0 =? 244)%N then inRange 128 143 b1
  else inRange 128 191 b1.

Definition leads2 (b0 : Ascii.ascii) : bool := inRange 194 223 b0.
Definition leads3 (b0 : Ascii.ascii) : bool := inRange 224 239 b0.
Definition leads4 (b0 : Ascii.ascii) : bool := inRange 240 244 b0.

(** [regexp.MustCompile(`[^a-zA-Z0-9-_.]`).ReplaceAllString(name, "-")]:
    every rune outside the class becomes one hyphen. A rune outside ASCII is
    never in the class; it takes two to four bytes when they form a valid
    encoding, and a byte that starts no valid encoding counts as a rune of
    its own (U+FFFD, width 1). *)
Fixpoint replaceUnsafe (s : string) : string :=
  match s with
  | EmptyString => EmptyString
  | String b0 t0 =>
      if isASCII b0 then String (if isSafe b0 then b0 else hyphen) (replaceUnsafe t0)
      else
        match t0 with
        | String b1 t1 =>
            if leads2 b0 && acceptsSecond b0 b1 then String hyphen (replaceUnsafe t1)
            else
              match t1 with
              | String b2 t2 =>
                  if leads3 b0 && acceptsSecond b0 b1 && isContinuation b2
                  then String hyphen (replaceUnsafe t2)
                  else
                    match t2 with
                    | String b3 t3 =>
                        if leads4 b0 && acceptsSecond b0 b1 && isContinuation b2
                           && isContinuation b3
                        then String hyphen (replaceUnsafe t3)
                        else String hyphen (replaceUnsafe t0)
                    | EmptyString => String hyphen (replaceUnsafe t0)
                    end
              | EmptyString => String hyphen (replaceUnsafe t0)
              end
        | EmptyString => String hyphen (replaceUnsafe t0)
        end
  end.

(** [regexp.MustCompile(`-+`).ReplaceAllString(sanitized, "-")]: every
    maximal run of hyphens becomes one hyphen. [inRun] tells that the
    previous byte was a hyphen of the run being replaced. *)
Fixpoint collapseFrom (inRun : bool) (s : string) : string :=
  match s with
  | EmptyString => EmptyString
  | String c t =>
      if isHyphen c
      then if inRun then collapseFrom true t else String c (collapseFrom true t)
      else String c (collapseFrom false t)
  end.

Definition collapseHyphens (s : string) : string := collapseFrom false s.

(** [strings.Trim(sanitized, "-")]: for a cutset of one ASCII byte Go trims
    that byte on the right, then on the left. *)
Fixpoint trimLeftByte (s : string) : string :=
  match s with
  | EmptyString => EmptyString
  | String c t => if isHyphen c then trimLeftByte t else s
  end.

Fixpoint trimRightByte (s : string) : string :=
  match s with
  | EmptyString => EmptyString
  | String c t =>
      match trimRightByte t with
      | EmptyString => if isHyphen c then EmptyString else String c EmptyString
      | t' => String c t'
      end
  end.

Definition Trim (s : string) : string := trimLeftByte (trimRightByte s).

Definition sanitizeFilename (name : string) : string :=
  let sanitized := replaceUnsafe name in
  let sanitized := collapseHyphens sanitized in
  let sanitized := Trim sanitized in
  sanitized.

(** The word characters of a string, in order. *)
Fixpoint wordChars (s : string) : string :=
  match s with
  | EmptyString => EmptyString
  | String c t => if isWordChar c then String c (wordChars t) else wordChars t
  end.

Fixpoint allSafe (s : string) : bool :=
  match s with
  | EmptyString => true
  | String c t => isSafe c && allSafe t
  end.

(** What is left of the input after the rune that starts with byte [b0]
    (the statements about [replaceUnsafe] go rune by rune). *)
Definition runeTail (b0 : Ascii.ascii) (t0 : string) : string :=
  if isASCII b0 then t0
  else
    match t0 with
    | String b1 t1 =>
        if leads2 b0 && acceptsSecond b0 b1 then t1
        else
          match t1 with
          | String b2 t2 =>
              if leads3 b0 && acceptsSecond b0 b1 && isContinuation b2 then t2
              else
                match t2 with
                | String b3 t3 =>
                    if leads4 b0 && acceptsSecond b0 b1 && isContinuation b2
                       && isContinuation b3
                    then t3 else t0
                | EmptyString => t0
                end
          | EmptyString => t0
          end
    | EmptyString => t0
    end.

Definition startsWithHyphen (s : string) : bool :=
  match s with
  | EmptyString => false
  | String c _ => isHyphen c
  end.

Fixpoint endsWithHyphen (s : string) : bool :=
  match s with
  | EmptyString => false
  | String c EmptyString => isHyphen c
  | String _ t => endsWithHyphen t
  end.

Fixpoint hasDoubleHyphen (s : string) : bool :=
  match s with
  | EmptyString => false
  | String c t => (isHyphen c && startsWithHyphen t) || hasDoubleHyphen t
  end.

(** A name that needs no change: safe characters only, no two hyphens in a
    row, no hyphen at either end. *)
Definition isClean (s : string) : bool :=
  allSafe s && negb (hasDoubleHyphen s) && negb (startsWithHyphen s)
  && negb (endsWithHyphen s).

(** ** Notions used by the statements *)

(** The iteration started in world [w] has a failing fetch: its pod fetch
    fails, or its pod fetch succeeds and its node fetch fails. *)
Definition fetchFails (mc : MetricsClient) (w : World) : Prop :=
  match PodMetricsesList mc (podCalls w) with
  | Err _ => True
  | Ok _ =>
      match NodeMetricsesList mc (nodeCalls w) with
      | Err _ => True
      | Ok _ => False
      end
  end.

(** The accumulator of container [container] of pod [pod], if there is one. *)
Definition containerEntry (pods : gmap string PodMetrics) (pod container : string)
    : option ContainerMetrics :=
  match pods !! pod with
  | Some pm => pm_Containers pm !! container
  | None => None
  end.

(** The items of a pod, and the usages of one of its containers, among the
    items of the successful pod fetches, in the order they were observed. *)
Definition itemsOf (pod : string) (items : list PodMetricsItem) : list PodMetricsItem :=
  filter (λ item, pi_Name item = pod) items.

Definition usagesOf (container : string) (cs : list ContainerUsage) : list ContainerUsage :=
  filter (λ c, cu_Name c = container) cs.

Definition observations (pod container : string) (items : list PodMetricsItem)
    : list ContainerUsage :=
  usagesOf container (flat_map pi_Containers (itemsOf pod items)).

Definition nodeObservations (node : string) (items : list NodeMetricsItem)
    : list NodeMetricsItem :=
  filter (λ n, ni_Name n = node) items.

(** [v] is the greatest element of [l]. *)
Definition isMaximum (v : Z) (l : list Z) : Prop :=
  v ∈ l /\ forall x, x ∈ l -> x <= v.

(** The usages of a container of the pod that is identified by namespace and
    name together, as the specification identifies pods. *)
Definition observationsIn (namespace pod container : string) (items : list PodMetricsItem)
    : list ContainerUsage :=
  usagesOf container
    (flat_map pi_Containers
       (filter (λ item, pi_Namespace item = namespace /\ pi_Name item = pod) items)).

(** The snapshot after a sequence of successful pod (node) samples. *)
Definition foldPodSamples (m : MetricsData) (samples : list (list PodMetricsItem))
    : MetricsData :=
  foldl foldPodItems m samples.

Definition foldNodeSamples (m : MetricsData) (samples : list (list NodeMetricsItem))
    : MetricsData :=
  foldl foldNodeItems m samples.

(** The successful pod samples of [n] iterations, the first of which makes
    pod call number [kp]: every iteration makes one pod call. *)
Fixpoint podSamplesOf (mc : MetricsClient) (n kp : nat) : list (list PodMetricsItem) :=
  match n with
  | O => []
  | S n' =>
      match PodMetricsesList mc kp with
      | Ok items => items :: podSamplesOf mc n' (S kp)
      | Err _ => podSamplesOf mc n' (S kp)
      end
  end.

(** The successful node samples of the same iterations: an iteration makes
    its node call, number [kn], only when its pod call has succeeded. *)
Fixpoint nodeSamplesOf (mc : MetricsClient) (n kp kn : nat) : list (list NodeMetricsItem) :=
  match n with
  | O => []
  | S n' =>
      match PodMetricsesList mc kp with
      | Err _ => nodeSamplesOf mc n' (S kp) kn
      | Ok _ =>
          match NodeMetricsesList mc kn with
          | Ok items => items :: nodeSamplesOf mc n' (S kp) (S kn)
          | Err _ => nodeSamplesOf mc n' (S kp) (S kn)
          end
      end
  end.

(** No owner reference of the pod leads to a deployment: each reference of
    kind "ReplicaSet" names a replica set that cannot be fetched or that has
    no owner of kind "Deployment" (and so does a pod without such a reference). *)
Definition noDeploymentOwner (cs : Clientset) (pod : Pod) : Prop :=
  Forall (λ owner,
            or_Kind owner = "ReplicaSet" ->
            match ReplicaSetsGet cs (p_Namespace pod) (or_Name owner) with
            | Err _ => True
            | Ok rsOwners => Forall (λ rsOwner, or_Kind rsOwner <> "Deployment") rsOwners
            end)
         (p_OwnerReferences pod).

(** The container lacks a non-zero CPU limit or a non-zero memory limit. *)
Definition lacksLimits (c : Container) : Prop :=
  Cpu (c_Limits c) = 0 \/ Memory (c_Limits c) = 0.

(** The pod has no entry in the snapshot, or an entry with a container. *)
Definition entryDivides (metrics : MetricsData) (pod : Pod) : Prop :=
  match md_PodMetrics metrics !! p_Name pod with
  | Some podMetrics => pm_Containers podMetrics <> ∅
  | None => True
  end.

(** The fields of an aggregate that do not depend on the order of the pods. *)
Record Summary := mkSummary {
  s_MaxCPU : Z;
  s_MaxMemory : Z;
  s_TotalPods : Z;
  s_PodsWithoutLimits : Z
}.

Definition summary (dm : DeploymentMetrics) : Summary :=
  mkSummary (dm_MaxCPU dm) (dm_MaxMemory dm) (dm_TotalPods dm) (dm_PodsWithoutLimits dm).

Definition summaries (r : run (gmap string DeploymentMetrics)) : run (gmap string Summary) :=
  match r with
  | Done dms => Done (summary <$> dms)
  | Panic => Panic
  end.

(** What one pod does to the summary of its aggregate, and whether it stops
    the aggregation. *)
Definition podPanics (metrics : MetricsData) (pod : Pod) : bool :=
  match md_PodMetrics metrics !! p_Name pod with
  | Some podMetrics => Z.of_nat (size (pm_Containers podMetrics)) =? 0
  | None => false
  end.

Definition podSummary (metrics : MetricsData) (pod : Pod) (s : Summary) : Summary :=
  let entries :=
    match md_PodMetrics metrics !! p_Name pod with
    | Some podMetrics => (map_to_list (pm_Containers podMetrics)).*2
    | None => []
    end in
  mkSummary (foldl Z.max (s_MaxCPU s) (cm_MaxCPU <$> entries))
            (foldl Z.max (s_MaxMemory s) (cm_MaxMemory <$> entries))
            (s_TotalPods s + 1)
            (s_PodsWithoutLimits s + if hasLimits (p_Containers pod) then 0 else 1).

Definition summarisePod (cs : Clientset) (metrics : MetricsData)
    (a : gmap string Summary) (pod : Pod) : run (gmap string Summary) :=
  let d := scanOwners cs (p_Namespace pod) (p_OwnerReferences pod) in
  if decide (d = EmptyString) then Done a
  else if podPanics metrics pod then Panic
  else
    let key := deploymentKey (p_Namespace pod) d in
    Done (<[key := podSummary metrics pod (default (mkSummary 0 0 0 0) (a !! key))]> a).

Fixpoint summariseLoop (cs : Clientset) (metrics : MetricsData)
    (a : gmap string Summary) (pods : list Pod) : run (gmap string Summary) :=
  match pods with
  | [] => Done a
  | pod :: rest =>
      match summarisePod cs metrics a pod with
      | Panic => Panic
      | Done a' => summariseLoop cs metrics a' rest
      end
  end.

(** The time the program has spent in [time.Sleep], read off the trace. *)
Fixpoint sleptTotal (events : list Event) : Z :=
  match events with
  | [] => 0
  | Slept d :: rest => d + sleptTotal rest
  | _ :: rest => sleptTotal rest
  end.

(** The pod resolves to a deployment and is filed under [key]. *)
Definition resolvesTo (cs : Clientset) (key : string) (pod : Pod) : Prop :=
  scanOwners cs (p_Namespace pod) (p_OwnerReferences pod) <> EmptyString
  /\ deploymentKey (p_Namespace pod)
       (scanOwners cs (p_Namespace pod) (p_OwnerReferences pod)) = key.

#[export] Instance resolvesTo_dec (cs : Clientset) (key : string) (pod : Pod) :
  Decision (resolvesTo cs key pod).
Proof. unfold resolvesTo. apply _. Defined.

(** The pod resolves to a deployment and its snapshot entry has no container. *)
Definition stopsAggregation (cs : Clientset) (metrics : MetricsData) (pod : Pod) : Prop :=
  scanOwners cs (p_Namespace pod) (p_OwnerReferences pod) <> EmptyString
  /\ exists podMetrics,
       md_PodMetrics metrics !! p_Name pod = Some podMetrics
       /\ pm_Containers podMetrics = ∅.

(** The container entries of the pod's snapshot entry, if it has one. *)
Definition podEntries (metrics : MetricsData) (pod : Pod) : list ContainerMetrics :=
  match md_PodMetrics metrics !! p_Name pod with
  | Some podMetrics => (map_to_list (pm_Containers podMetrics)).*2
  | None => []
  end.

(** The averages [foldPodUsage] computes for one entry: the wrapped sums of
    its container maxima divided by their number. *)
Definition entryAverage (podMetrics : PodMetrics) : Z * Z :=
  let entries := (map_to_list (pm_Containers podMetrics)).*2 in
  let n := Z.of_nat (size (pm_Containers podMetrics)) in
  (Z.quot (foldl (λ total cm, wrap64 (total + cm_MaxCPU cm)) 0 entries) n,
   Z.quot (foldl (λ total cm, wrap64 (total + cm_MaxMemory cm)) 0 entries) n).

(** ** Concrete inputs *)

Definition second : Z := 1000000000.
Definition Mi : Z := 1024 * 1024.

(** A Metrics Server whose node endpoint answers the probe and then fails,
    while the pod endpoint reports one pod with one container. *)
Definition nodesDownClient : MetricsClient :=
  mkMetricsClient
    (λ n, match n with O => Ok [] | S _ => Err "timeout" end)
    (λ _, Ok [mkPodMetricsItem "api-1" "prod" [mkContainerUsage "app" 120 (30 * Mi)]]).

(** A Metrics Server that does not answer the probe. *)
Definition downClient : MetricsClient :=
  mkMetricsClient (λ _, Err "connection refused") (λ _, Err "connection refused").

(** A Metrics Server that answers every call with empty lists. *)
Definition idleClient : MetricsClient :=
  mkMetricsClient (λ _, Ok []) (λ _, Ok []).

(** Three rounds of samples of one container and of one node. *)
Definition apiSamples : list (list PodMetricsItem) :=
  [ [mkPodMetricsItem "api-1" "prod" [mkContainerUsage "app" 120 (30 * Mi)]];
    [mkPodMetricsItem "api-1" "prod" [mkContainerUsage "app" 310 (28 * Mi)]];
    [mkPodMetricsItem "api-1" "prod" [mkContainerUsage "app" 200 (45 * Mi)]] ].

Definition workerSamples : list (list NodeMetricsItem) :=
  [ [mkNodeMetricsItem "worker-1" 1500 (4096 * Mi)];
    [mkNodeMetricsItem "worker-1" 900 (5120 * Mi)] ].

(** A cluster in which replica set "web-abc" is owned by deployment "web". *)
Definition webClientset : Clientset :=
  mkClientset (λ _ name,
    if decide (name = "web-abc") then Ok [mkOwnerReference "Deployment" "web"]
    else Err "not found").

Definition limits (cpu mem : Z) : gmap string Z := <["cpu" := cpu]> (<["memory" := mem]> ∅).

Definition webPod (name : string) (containers : list Container) : Pod :=
  mkPod name "ns" [mkOwnerReference "ReplicaSet" "web-abc"] containers.

(** The scenario of the specification: three pods of deployment "web" in
    namespace "ns", one of them without a memory limit, with container maxima
    (100m, 50Mi), (200m, 60Mi) and (150m, 40Mi). *)
Definition webPods : list Pod :=
  [ webPod "web-1" [mkContainer "app" (limits 500 (64 * Mi))];
    webPod "web-2" [mkContainer "app" {["cpu" := 500]}];
    webPod "web-3" [mkContainer "app" (limits 500 (64 * Mi))] ].

Definition webSample : list PodMetricsItem :=
  [ mkPodMetricsItem "web-1" "ns" [mkContainerUsage "app" 100 (50 * Mi)];
    mkPodMetricsItem "web-2" "ns" [mkContainerUsage "app" 200 (60 * Mi)];
    mkPodMetricsItem "web-3" "ns" [mkContainerUsage "app" 150 (40 * Mi)] ].

Definition webSnapshot : MetricsData := foldPodItems newMetricsData webSample.

(** A pod the Metrics Server lists without containers, as it does for a pod
    that has just started. *)
Definition startingSnapshot : MetricsData :=
  foldPodItems newMetricsData [mkPodMetricsItem "web-1" "ns" []].

(** A bare pod, and a pod whose replica set cannot be fetched. *)
Definition barePod : Pod := mkPod "debug" "ns" [] [mkContainer "sh" ∅].

Definition orphanPod : Pod :=
  mkPod "job-1" "ns" [mkOwnerReference "ReplicaSet" "gone"; mkOwnerReference "Job" "job"]
    [mkContainer "run" ∅].

(** Two pods named "api-0", one in namespace "blue" and one in "green",
    each owned by the deployment "web" of its namespace. *)
Definition blueItem : PodMetricsItem :=
  mkPodMetricsItem "api-0" "blue" [mkContainerUsage "app" 100 (20 * Mi)].

Definition greenItem : PodMetricsItem :=
  mkPodMetricsItem "api-0" "green" [mkContainerUsage "app" 300 (10 * Mi)].

Definition bluePod : Pod :=
  mkPod "api-0" "blue" [mkOwnerReference "ReplicaSet" "web-abc"]
    [mkContainer "app" (limits 500 (64 * Mi))].

Definition greenPod : Pod :=
  mkPod "api-0" "green" [mkOwnerReference "ReplicaSet" "web-abc"]
    [mkContainer "app" (limits 500 (64 * Mi))].

(** A pod with three owner references, the last of which leads to "web". *)
Definition mixedPod : Pod :=
  mkPod "web-9" "ns"
    [mkOwnerReference "Job" "migrate"; mkOwnerReference "ReplicaSet" "gone";
     mkOwnerReference "ReplicaSet" "web-abc"]
    [mkContainer "app" (limits 500 (64 * Mi))].

(** A Metrics Server that answers the probe and the node endpoint, while its
    pod endpoint fails. *)
Definition podsDownClient : MetricsClient :=
  mkMetricsClient (λ _, Ok [mkNodeMetricsItem "worker-1" 1500 (4096 * Mi)])
                  (λ _, Err "timeout").

(** A sample with a negative usage figure. *)
Definition negativeSample : list PodMetricsItem :=
  [mkPodMetricsItem "api-1" "prod" [mkContainerUsage "app" (-5) (-1)]].

(** * Properties *)

(** ** The sampler: probe, window and fetch failures *)

Lemma iterationsOf_short (period : Z) : period < interval -> Z.to_nat (iterationsOf period) = 0%nat.
Proof.
  intros Hlt. unfold iterationsOf.
  destruct (Z.le_gt_cases 0 period) as [Hnn | Hneg].
  - rewrite Z.quot_small by lia. reflexivity.
  - assert (Z.quot period interval <= 0).
    { pose proof (Z.quot_opp_l period interval) as Ho.
      assert (0 <= Z.quot (- period) interval) by (apply Z.quot_pos; unfold interval; lia).
      rewrite Ho in H by (unfold interval; lia). lia. }
    lia.
Qed.

(** One iteration, with the monad unfolded: the three ways through the body. *)
Lemma iteration_cases (mc : MetricsClient) (i iterations : Z) (metrics : MetricsData)
    (w : World) :
  iteration mc i iterations metrics w =
    let started := CalledPodMetrics :: PrintedProgress (i + 1) iterations :: trace w in
    match PodMetricsesList mc (podCalls w) with
    | Err _ =>
        (metrics,
         mkWorld (nodeCalls w) (S (podCalls w)) (PrintedWarning PodFetch :: started))
    | Ok podItems =>
        match NodeMetricsesList mc (nodeCalls w) with
        | Err _ =>
            (foldPodItems metrics podItems,
             mkWorld (S (nodeCalls w)) (S (podCalls w))
               (PrintedWarning NodeFetch :: CalledNodeMetrics :: started))
        | Ok nodeItems =>
            (foldNodeItems (foldPodItems metrics podItems) nodeItems,
             mkWorld (S (nodeCalls w)) (S (podCalls w))
               (Slept interval :: CalledNodeMetrics :: started))
        end
    end.
Proof.
  unfold iteration, mbind, IO_bind, mret, IO_ret, emit, listPodMetrics, listNodeMetrics.
  simpl. destruct (PodMetricsesList mc (podCalls w)); simpl; [|reflexivity].
  destruct (NodeMetricsesList mc (nodeCalls w)); reflexivity.
Qed.

(** Whatever happens in it, one iteration makes exactly one pod fetch. *)
Lemma iteration_podCalls (mc : MetricsClient) (i iterations : Z) (metrics : MetricsData)
    (w : World) :
  podCalls (iteration mc i iterations metrics w).2 = S (podCalls w).
Proof.
  unfold iteration, mbind, IO_bind, mret, IO_ret, emit, listPodMetrics, listNodeMetrics.
  simpl. destruct (PodMetricsesList mc (podCalls w)); simpl; [|reflexivity].
  destruct (NodeMetricsesList mc (nodeCalls w)); reflexivity.
Qed.

Lemma samplingLoop_podCalls (mc : MetricsClient) (n : nat) :
  forall (i iterations : Z) (metrics : MetricsData) (w : World),
    podCalls (samplingLoop mc n i iterations metrics w).2 = (n + podCalls w)%nat.
Proof.
  induction n as [|n IH]; intros i iterations metrics w; [reflexivity|].
  simpl. unfold mbind, IO_bind.
  pose proof (iteration_podCalls mc i iterations metrics w) as Hit.
  destruct (iteration mc i iterations metrics w) as [metrics' w'].
  simpl in Hit. rewrite IH, Hit. lia.
Qed.

(** C5. When the probe of the Metrics Server fails, [collectMetrics] returns
    the "Metrics Server" error and no snapshot, and the probe is the only
    call it has made: no pod or node metrics are fetched, no iteration runs. *)
Theorem collectMetrics_probe_failure (mc : MetricsClient) (period : Z) (w : World)
    (cause : string) :
  NodeMetricsesList mc (nodeCalls w) = Err cause ->
  collectMetrics mc period w =
    (Err (MetricsServerError cause),
     mkWorld (S (nodeCalls w)) (podCalls w) (CalledNodeMetrics :: trace w)).
Proof.
  intros Hprobe.
  unfold collectMetrics, checkMetricsServer, mbind, IO_bind, listNodeMetrics.
  rewrite Hprobe. reflexivity.
Qed.

Lemma collectMetrics_probe_failure_witness :
  NodeMetricsesList downClient (nodeCalls initialWorld) = Err "connection refused" /\
  collectMetrics downClient (300 * second) initialWorld =
    (Err (MetricsServerError "connection refused"), mkWorld 1 0 [CalledNodeMetrics]).
Proof.
  split; [reflexivity|].
  apply (collectMetrics_probe_failure downClient (300 * second) initialWorld
           "connection refused").
  reflexivity.
Defined.

(** C7. With a window strictly below the 30 s interval (and a probe that
    succeeds) [collectMetrics] runs no iteration: after the probe it fetches
    nothing and does not wait, and it returns a snapshot, not nil, whose pod
    and node maps are empty. *)
Theorem collectMetrics_short_window (mc : MetricsClient) (period : Z) (w : World)
    (nodes : list NodeMetricsItem) :
  period < interval ->
  NodeMetricsesList mc (nodeCalls w) = Ok nodes ->
  collectMetrics mc period w =
    (Ok newMetricsData,
     mkWorld (S (nodeCalls w)) (podCalls w)
       (PrintedBanner period :: CalledNodeMetrics :: trace w))
  /\ md_PodMetrics newMetricsData = ∅ /\ md_NodeMetrics newMetricsData = ∅.
Proof.
  intros Hshort Hprobe. split; [|split; reflexivity].
  unfold collectMetrics, checkMetricsServer, mbind, IO_bind, listNodeMetrics.
  rewrite Hprobe. simpl. rewrite (iterationsOf_short period Hshort). reflexivity.
Qed.

Lemma collectMetrics_short_window_witness :
  29 * second < interval /\
  NodeMetricsesList idleClient (nodeCalls initialWorld) = Ok [] /\
  collectMetrics idleClient (29 * second) initialWorld =
    (Ok newMetricsData,
     mkWorld 1 0 [PrintedBanner (29 * second); CalledNodeMetrics]).
Proof.
  split; [reflexivity|]. split; [reflexivity|].
  apply (collectMetrics_short_window idleClient (29 * second) initialWorld []);
    reflexivity.
Defined.

(** C4, as stated, fails. In the world left by a successful probe, the first
    iteration against [nodesDownClient] has a failing node fetch; the pod
    usage fetched just before is already in the snapshot, and the iteration
    ends on the warning, without [time.Sleep]. *)
Lemma iteration_node_failure_counterexample :
  let w := mkWorld 1 0 [CalledNodeMetrics] in
  let r := iteration nodesDownClient 0 2 newMetricsData w in
  fetchFails nodesDownClient w /\
  r.1 <> newMetricsData /\
  md_PodMetrics r.1 !! "api-1" =
    Some (mkPodMetrics 0 0 "prod" {["app" := mkContainerMetrics 120 31457280]}) /\
  trace r.2 = [PrintedWarning NodeFetch; CalledNodeMetrics; CalledPodMetrics;
               PrintedProgress 1 2; CalledNodeMetrics].
Proof.
  cbv zeta. split; [exact I|]. split; [|split; [vm_compute; reflexivity|reflexivity]].
  intros Heq. apply (f_equal (fun m => md_PodMetrics m !! "api-1")) in Heq.
  vm_compute in Heq. discriminate Heq.
Qed.

(** C4, amended. In an iteration whose pod fetch fails the snapshot is left
    as it was. In an iteration whose pod fetch succeeds and whose node fetch
    fails, the pod usage of that iteration is folded in and the node map is
    left as it was. In both cases the loop goes on: each of the [n] rounds
    that remain makes its pod fetch. *)
Theorem iteration_fetch_failure (mc : MetricsClient) (i iterations : Z)
    (metrics : MetricsData) (w : World) (n : nat) :
  fetchFails mc w ->
  let r := iteration mc i iterations metrics w in
  md_NodeMetrics r.1 = md_NodeMetrics metrics /\
  md_PodMetrics r.1 =
    match PodMetricsesList mc (podCalls w) with
    | Err _ => md_PodMetrics metrics
    | Ok items => foldl observePod (md_PodMetrics metrics) items
    end /\
  podCalls (samplingLoop mc n (i + 1) iterations r.1 r.2).2 = (n + S (podCalls w))%nat.
Proof.
  intros Hfail r. split; [|split].
  - subst r. unfold fetchFails in Hfail.
    unfold iteration, mbind, IO_bind, mret, IO_ret, emit, listPodMetrics, listNodeMetrics.
    simpl. destruct (PodMetricsesList mc (podCalls w)); simpl; [|reflexivity].
    destruct (NodeMetricsesList mc (nodeCalls w)); [contradiction|reflexivity].
  - subst r. unfold fetchFails in Hfail.
    unfold iteration, mbind, IO_bind, mret, IO_ret, emit, listPodMetrics, listNodeMetrics.
    simpl. destruct (PodMetricsesList mc (podCalls w)); simpl; [|reflexivity].
    destruct (NodeMetricsesList mc (nodeCalls w)); [contradiction|reflexivity].
  - rewrite samplingLoop_podCalls. subst r. rewrite iteration_podCalls. reflexivity.
Qed.

Lemma iteration_fetch_failure_witness :
  let w := mkWorld 1 0 [CalledNodeMetrics] in
  let r := iteration nodesDownClient 0 2 newMetricsData w in
  fetchFails nodesDownClient w /\
  md_NodeMetrics r.1 = ∅ /\
  podCalls (samplingLoop nodesDownClient 1 1 2 r.1 r.2).2 = 2%nat.
Proof.
  cbv zeta. split; [exact I|].
  pose proof (iteration_fetch_failure nodesDownClient 0 2 newMetricsData
                (mkWorld 1 0 [CalledNodeMetrics]) 1 I) as H.
  cbv zeta in H. destruct H as (Hn & _ & Hloop). split; [exact Hn|exact Hloop].
Defined.

(** What the code does about the wait: an iteration with a failing fetch
    ends on its warning; it records no [Slept] event. *)
Lemma iteration_failure_trace (mc : MetricsClient) (i iterations : Z)
    (metrics : MetricsData) (w : World) :
  fetchFails mc w ->
  let started := CalledPodMetrics :: PrintedProgress (i + 1) iterations :: trace w in
  trace (iteration mc i iterations metrics w).2 = PrintedWarning PodFetch :: started
  \/ trace (iteration mc i iterations metrics w).2 =
       PrintedWarning NodeFetch :: CalledNodeMetrics :: started.
Proof.
  intros Hfail. rewrite iteration_cases. unfold fetchFails in Hfail. cbv zeta.
  destruct (PodMetricsesList mc (podCalls w)); [|by left].
  destruct (NodeMetricsesList mc (nodeCalls w)); [done|by right].
Qed.

(** A whole run against [nodesDownClient] with a window of two intervals:
    both iterations fail at the node fetch, the pod usage is in the snapshot
    that is returned, and the program has not waited at all. *)
Example collectMetrics_nodes_down :
  collectMetrics nodesDownClient (60 * second) initialWorld =
    (Ok (mkMetricsData
           {["api-1" := mkPodMetrics 0 0 "prod" {["app" := mkContainerMetrics 120 (30 * Mi)]}]}
           ∅),
     mkWorld 3 2
       [PrintedWarning NodeFetch; CalledNodeMetrics; CalledPodMetrics; PrintedProgress 2 2;
        PrintedWarning NodeFetch; CalledNodeMetrics; CalledPodMetrics; PrintedProgress 1 2;
        PrintedBanner (60 * second); CalledNodeMetrics]).
Proof. vm_compute. reflexivity. Qed.

(** ** The sampler: max accumulation *)

Lemma ltb_max (a b : Z) : (if a <? b then b else a) = Z.max a b.
Proof. destruct (Z.ltb_spec a b); lia. Qed.

Lemma observeContainer_lookup (cs : gmap string ContainerMetrics) (c : ContainerUsage)
    (k : string) :
  observeContainer cs c !! k =
    if decide (cu_Name c = k)
    then Some (mkContainerMetrics
                 (Z.max (cm_MaxCPU (default (mkContainerMetrics 0 0) (cs !! k))) (cu_Cpu c))
                 (Z.max (cm_MaxMemory (default (mkContainerMetrics 0 0) (cs !! k))) (cu_Memory c)))
    else cs !! k.
Proof.
  unfold observeContainer. rewrite !ltb_max. case_decide as Hk.
  - subst k. by rewrite lookup_insert_eq.
  - by rewrite lookup_insert_ne.
Qed.

Lemma foldl_max_le (l : list Z) : forall a, a <= foldl Z.max a l.
Proof.
  induction l as [|x l IH]; intros a; simpl; [lia|].
  specialize (IH (Z.max a x)). lia.
Qed.

Lemma foldl_max_ge (l : list Z) : forall a x, x ∈ l -> x <= foldl Z.max a l.
Proof.
  induction l as [|y l IH]; intros a x Hin; simpl.
  - by apply elem_of_nil in Hin.
  - apply elem_of_cons in Hin as [->|Hin].
    + pose proof (foldl_max_le l (Z.max a y)). lia.
    + by apply IH.
Qed.

Lemma foldl_max_in (l : list Z) : forall a, foldl Z.max a l = a \/ foldl Z.max a l ∈ l.
Proof.
  induction l as [|y l IH]; intros a; simpl; [by left|].
  destruct (IH (Z.max a y)) as [Heq|Hin].
  - rewrite Heq. destruct (Z.max_spec a y) as [[_ ->]|[_ ->]];
      [right; apply elem_of_cons; by left | by left].
  - right. apply elem_of_cons. by right.
Qed.

(** The entry of container [k] after a batch of usages: untouched when [k]
    is not in the batch, otherwise the running maximum from the old entry (or
    from zero) over the usages of [k]. *)
Lemma foldl_observeContainer_lookup (l : list ContainerUsage) (k : string) :
  forall cs : gmap string ContainerMetrics,
    foldl observeContainer cs l !! k =
      match usagesOf k l with
      | [] => cs !! k
      | us =>
          Some (mkContainerMetrics
                  (foldl Z.max (cm_MaxCPU (default (mkContainerMetrics 0 0) (cs !! k)))
                         (cu_Cpu <$> us))
                  (foldl Z.max (cm_MaxMemory (default (mkContainerMetrics 0 0) (cs !! k)))
                         (cu_Memory <$> us)))
      end.
Proof.
  unfold usagesOf. induction l as [|c l IH]; intros cs; simpl; [done|].
  rewrite IH, observeContainer_lookup. rewrite filter_cons.
  destruct (decide (cu_Name c = k)) as [Hk|Hk].
  - destruct (filter _ l); simpl; reflexivity.
  - reflexivity.
Qed.

Lemma observePod_lookup (pods : gmap string PodMetrics) (item : PodMetricsItem)
    (p : string) :
  observePod pods item !! p =
    if decide (pi_Name item = p)
    then
      let cur := default (mkPodMetrics 0 0 (pi_Namespace item) ∅) (pods !! p) in
      Some (mkPodMetrics (pm_MaxCPU cur) (pm_MaxMemory cur) (pm_Namespace cur)
              (foldl observeContainer (pm_Containers cur) (pi_Containers item)))
    else pods !! p.
Proof.
  unfold observePod. case_decide as Hp.
  - subst p. by rewrite lookup_insert_eq.
  - by rewrite lookup_insert_ne.
Qed.

(** The entry of pod [p] after a batch of items: untouched when no item is
    named [p]; otherwise the old entry, or a new one with the namespace of the
    first such item, with the containers of all such items folded in. *)
Lemma foldl_observePod_lookup (items : list PodMetricsItem) (p : string) :
  forall pods : gmap string PodMetrics,
    foldl observePod pods items !! p =
      match itemsOf p items with
      | [] => pods !! p
      | first :: _ =>
          let cur := default (mkPodMetrics 0 0 (pi_Namespace first) ∅) (pods !! p) in
          Some (mkPodMetrics (pm_MaxCPU cur) (pm_MaxMemory cur) (pm_Namespace cur)
                  (foldl observeContainer (pm_Containers cur)
                         (flat_map pi_Containers (itemsOf p items))))
      end.
Proof.
  unfold itemsOf. induction items as [|item items IH]; intros pods; simpl; [done|].
  rewrite IH, observePod_lookup, filter_cons.
  destruct (decide (pi_Name item = p)) as [Hp|Hp]; [|reflexivity].
  destruct (filter _ items) as [|first rest]; simpl.
  - by rewrite app_nil_r.
  - by rewrite !foldl_app.
Qed.

Lemma containerEntry_foldl (items : list PodMetricsItem) (pods : gmap string PodMetrics)
    (p c : string) :
  containerEntry (foldl observePod pods items) p c =
    match observations p c items with
    | [] => containerEntry pods p c
    | obs =>
        let cur := default (mkContainerMetrics 0 0) (containerEntry pods p c) in
        Some (mkContainerMetrics (foldl Z.max (cm_MaxCPU cur) (cu_Cpu <$> obs))
                                 (foldl Z.max (cm_MaxMemory cur) (cu_Memory <$> obs)))
    end.
Proof.
  unfold containerEntry at 1, observations. rewrite foldl_observePod_lookup.
  destruct (itemsOf p items) as [|first rest] eqn:Hits; simpl.
  - reflexivity.
  - rewrite foldl_observeContainer_lookup.
    assert (pm_Containers (default (mkPodMetrics 0 0 (pi_Namespace first) ∅) (pods !! p)) !! c
            = containerEntry pods p c) as ->.
    { unfold containerEntry. destruct (pods !! p); simpl; [done|apply lookup_empty]. }
    reflexivity.
Qed.

Lemma foldPodSamples_pods (samples : list (list PodMetricsItem)) :
  forall m : MetricsData,
    md_PodMetrics (foldPodSamples m samples) =
      foldl observePod (md_PodMetrics m) (concat samples)
    /\ md_NodeMetrics (foldPodSamples m samples) = md_NodeMetrics m.
Proof.
  unfold foldPodSamples. induction samples as [|s samples IH]; intros m; simpl; [done|].
  destruct (IH (foldPodItems m s)) as [-> ->]. by rewrite foldl_app.
Qed.

Lemma observeNode_lookup (nodes : gmap string NodeMetrics) (n : NodeMetricsItem)
    (k : string) :
  observeNode nodes n !! k =
    if decide (ni_Name n = k)
    then Some (mkNodeMetrics
                 (Z.max (nm_MaxCPU (default (mkNodeMetrics 0 0) (nodes !! k))) (ni_Cpu n))
                 (Z.max (nm_MaxMemory (default (mkNodeMetrics 0 0) (nodes !! k))) (ni_Memory n)))
    else nodes !! k.
Proof.
  unfold observeNode. rewrite !ltb_max. case_decide as Hk.
  - subst k. by rewrite lookup_insert_eq.
  - by rewrite lookup_insert_ne.
Qed.

Lemma foldl_observeNode_lookup (items : list NodeMetricsItem) (k : string) :
  forall nodes : gmap string NodeMetrics,
    foldl observeNode nodes items !! k =
      match nodeObservations k items with
      | [] => nodes !! k
      | obs =>
          let cur := default (mkNodeMetrics 0 0) (nodes !! k) in
          Some (mkNodeMetrics (foldl Z.max (nm_MaxCPU cur) (ni_Cpu <$> obs))
                              (foldl Z.max (nm_MaxMemory cur) (ni_Memory <$> obs)))
      end.
Proof.
  unfold nodeObservations. induction items as [|n items IH]; intros nodes; simpl; [done|].
  rewrite IH, observeNode_lookup, filter_cons.
  destruct (decide (ni_Name n = k)) as [Hk|Hk]; [|reflexivity].
  destruct (filter _ items); simpl; reflexivity.
Qed.

Lemma foldNodeSamples_nodes (samples : list (list NodeMetricsItem)) :
  forall m : MetricsData,
    md_NodeMetrics (foldNodeSamples m samples) =
      foldl observeNode (md_NodeMetrics m) (concat samples)
    /\ md_PodMetrics (foldNodeSamples m samples) = md_PodMetrics m.
Proof.
  unfold foldNodeSamples. induction samples as [|s samples IH]; intros m; simpl; [done|].
  destruct (IH (foldNodeItems m s)) as [-> ->]. by rewrite foldl_app.
Qed.

Lemma take_split_le {A : Type} (l : list A) (i j : nat) :
  (i <= j)%nat -> take j l = take i l ++ drop i (take j l).
Proof.
  intros Hij. rewrite <- (take_drop i (take j l)) at 1.
  rewrite take_take. by rewrite Nat.min_l.
Qed.

(** From the empty snapshot, the entry of an observed container holds the
    fold of [Z.max] from zero over its observations. *)
Lemma containerEntry_from_empty (items : list PodMetricsItem) (p c : string) :
  observations p c items <> [] ->
  containerEntry (foldl observePod ∅ items) p c =
    Some (mkContainerMetrics (foldl Z.max 0 (cu_Cpu <$> observations p c items))
                             (foldl Z.max 0 (cu_Memory <$> observations p c items))).
Proof.
  intros Hobs. rewrite containerEntry_foldl.
  destruct (observations p c items) as [|o obs]; [done|].
  unfold containerEntry. by rewrite lookup_empty.
Qed.

Lemma nodeEntry_from_empty (items : list NodeMetricsItem) (k : string) :
  nodeObservations k items <> [] ->
  foldl observeNode ∅ items !! k =
    Some (mkNodeMetrics (foldl Z.max 0 (ni_Cpu <$> nodeObservations k items))
                        (foldl Z.max 0 (ni_Memory <$> nodeObservations k items))).
Proof.
  intros Hobs. rewrite foldl_observeNode_lookup.
  destruct (nodeObservations k items) as [|o obs]; [done|].
  by rewrite lookup_empty.
Qed.

(** Starting from zero, the fold of [Z.max] over a list is the greatest
    of zero and the elements of the list. *)
Lemma foldl_max_isMaximum_zero (l : list Z) : isMaximum (foldl Z.max 0 l) (0 :: l).
Proof.
  split.
  - destruct (foldl_max_in l 0) as [->|Hin]; apply elem_of_cons; [by left|by right].
  - intros x [->|Hx]%elem_of_cons; [apply foldl_max_le|by apply foldl_max_ge].
Qed.

(** It is the greatest element of the list as soon as one element is not
    negative. *)
Lemma foldl_max_isMaximum_some (l : list Z) :
  (exists x, x ∈ l /\ 0 <= x) -> isMaximum (foldl Z.max 0 l) l.
Proof.
  intros (x & Hx & Hx0). split; [|intros y Hy; by apply foldl_max_ge].
  destruct (foldl_max_in l 0) as [Heq|Hin]; [|done].
  pose proof (foldl_max_ge l 0 x Hx) as Hle.
  assert (x = foldl Z.max 0 l) as <- by lia. exact Hx.
Qed.

(** C6, as stated, fails. A container observed once, with -5m and -1 byte,
    is kept with maxima 0 and 0, which are not among the observed values.
    Two pods named "api-0", one in namespace "blue" observed with (100m,
    20Mi) and one in namespace "green" observed with (300m, 10Mi), share one
    entry with maxima (300m, 20Mi): 300m is not the maximum of the blue
    container, 20Mi is not the maximum of the green one. *)
Lemma true_maximum_counterexample :
  containerEntry (md_PodMetrics (foldPodSamples newMetricsData [negativeSample]))
    "api-1" "app" = Some (mkContainerMetrics 0 0)
  /\ cu_Cpu <$> observations "api-1" "app" negativeSample = [-5]
  /\ ~ isMaximum 0 [-5]
  /\ containerEntry (md_PodMetrics (foldPodSamples newMetricsData [[blueItem]; [greenItem]]))
       "api-0" "app" = Some (mkContainerMetrics 300 (20 * Mi))
  /\ cu_Cpu <$> observationsIn "blue" "api-0" "app" [blueItem; greenItem] = [100]
  /\ cu_Memory <$> observationsIn "green" "api-0" "app" [blueItem; greenItem] = [10 * Mi]
  /\ ~ isMaximum 300 [100]
  /\ ~ isMaximum (20 * Mi) [10 * Mi].
Proof.
  split; [vm_compute; reflexivity|]. split; [vm_compute; reflexivity|].
  split; [intros [Hin _]; apply list_elem_of_singleton in Hin; discriminate Hin|].
  split; [vm_compute; reflexivity|]. split; [vm_compute; reflexivity|].
  split; [vm_compute; reflexivity|].
  split; intros [Hin _]; apply list_elem_of_singleton in Hin; discriminate Hin.
Qed.

(** C6, amended. Along any sequence of successful samples the maxima kept
    for a container and for a node never decrease. After the last sample of
    a run that started from the empty snapshot, the maxima of a container
    that was observed (of a node that was observed) are the greatest of zero
    and the values observed under that pod name and container name (under
    that node name), whatever the namespace of the pod; they are the
    greatest of the observed values as soon as one of these is not negative.
    A container that was never observed has no entry. *)
Theorem max_accumulation_clamped (podSamples : list (list PodMetricsItem))
    (nodeSamples : list (list NodeMetricsItem)) :
  (forall (m : MetricsData) (i j : nat) (p c : string) (cm : ContainerMetrics),
      (i <= j)%nat ->
      containerEntry (md_PodMetrics (foldPodSamples m (take i podSamples))) p c = Some cm ->
      exists cm',
        containerEntry (md_PodMetrics (foldPodSamples m (take j podSamples))) p c = Some cm'
        /\ cm_MaxCPU cm <= cm_MaxCPU cm' /\ cm_MaxMemory cm <= cm_MaxMemory cm')
  /\ (forall p c : string,
        let obs := observations p c (concat podSamples) in
        let entry :=
          containerEntry (md_PodMetrics (foldPodSamples newMetricsData podSamples)) p c in
        (obs = [] -> entry = None)
        /\ (obs <> [] ->
            exists cm,
              entry = Some cm
              /\ isMaximum (cm_MaxCPU cm) (0 :: (cu_Cpu <$> obs))
              /\ isMaximum (cm_MaxMemory cm) (0 :: (cu_Memory <$> obs))
              /\ ((exists o, o ∈ obs /\ 0 <= cu_Cpu o) ->
                  isMaximum (cm_MaxCPU cm) (cu_Cpu <$> obs))
              /\ ((exists o, o ∈ obs /\ 0 <= cu_Memory o) ->
                  isMaximum (cm_MaxMemory cm) (cu_Memory <$> obs))))
  /\ (forall (m : MetricsData) (i j : nat) (k : string) (nm : NodeMetrics),
        (i <= j)%nat ->
        md_NodeMetrics (foldNodeSamples m (take i nodeSamples)) !! k = Some nm ->
        exists nm',
          md_NodeMetrics (foldNodeSamples m (take j nodeSamples)) !! k = Some nm'
          /\ nm_MaxCPU nm <= nm_MaxCPU nm' /\ nm_MaxMemory nm <= nm_MaxMemory nm')
  /\ (forall k : string,
        let obs := nodeObservations k (concat nodeSamples) in
        let entry := md_NodeMetrics (foldNodeSamples newMetricsData nodeSamples) !! k in
        (obs = [] -> entry = None)
        /\ (obs <> [] ->
            exists nm,
              entry = Some nm
              /\ isMaximum (nm_MaxCPU nm) (0 :: (ni_Cpu <$> obs))
              /\ isMaximum (nm_MaxMemory nm) (0 :: (ni_Memory <$> obs))
              /\ ((exists o, o ∈ obs /\ 0 <= ni_Cpu o) ->
                  isMaximum (nm_MaxCPU nm) (ni_Cpu <$> obs))
              /\ ((exists o, o ∈ obs /\ 0 <= ni_Memory o) ->
                  isMaximum (nm_MaxMemory nm) (ni_Memory <$> obs)))).
Proof.
  split; [|split; [|split]].
  - intros m i j p c cm Hij Hcm.
    rewrite (take_split_le podSamples i j Hij).
    unfold foldPodSamples in *. rewrite foldl_app.
    fold (foldPodSamples (foldl foldPodItems m (take i podSamples))
            (drop i (take j podSamples))).
    destruct (foldPodSamples_pods (drop i (take j podSamples))
                (foldl foldPodItems m (take i podSamples))) as [-> _].
    rewrite containerEntry_foldl, Hcm.
    destruct (observations p c _) as [|o obs]; [exists cm; repeat split; lia|].
    eexists; split; [reflexivity|]. cbn [cm_MaxCPU cm_MaxMemory default].
    split; apply foldl_max_le.
  - intros p c obs entry. subst entry.
    destruct (foldPodSamples_pods podSamples newMetricsData) as [-> _].
    cbn [md_PodMetrics newMetricsData]. split.
    + intros Hnone. rewrite containerEntry_foldl. fold obs. rewrite Hnone.
      unfold containerEntry. by rewrite lookup_empty.
    + intros Hobs. rewrite (containerEntry_from_empty _ p c Hobs). fold obs.
      eexists; split; [reflexivity|]. cbn [cm_MaxCPU cm_MaxMemory].
      split; [apply foldl_max_isMaximum_zero|].
      split; [apply foldl_max_isMaximum_zero|].
      split; intros (o & Ho & Ho0); apply foldl_max_isMaximum_some;
        eexists; (split; [apply list_elem_of_fmap; by exists o|exact Ho0]).
  - intros m i j k nm Hij Hnm.
    rewrite (take_split_le nodeSamples i j Hij).
    unfold foldNodeSamples in *. rewrite foldl_app.
    fold (foldNodeSamples (foldl foldNodeItems m (take i nodeSamples))
            (drop i (take j nodeSamples))).
    destruct (foldNodeSamples_nodes (drop i (take j nodeSamples))
                (foldl foldNodeItems m (take i nodeSamples))) as [-> _].
    rewrite foldl_observeNode_lookup, Hnm.
    destruct (nodeObservations k _) as [|o obs]; [exists nm; repeat split; lia|].
    eexists; split; [reflexivity|]. cbn [nm_MaxCPU nm_MaxMemory default].
    split; apply foldl_max_le.
  - intros k obs entry. subst entry.
    destruct (foldNodeSamples_nodes nodeSamples newMetricsData) as [-> _].
    cbn [md_NodeMetrics newMetricsData]. split.
    + intros Hnone. rewrite foldl_observeNode_lookup. fold obs. rewrite Hnone.
      by rewrite lookup_empty.
    + intros Hobs. rewrite (nodeEntry_from_empty _ k Hobs). fold obs.
      eexists; split; [reflexivity|]. cbn [nm_MaxCPU nm_MaxMemory].
      split; [apply foldl_max_isMaximum_zero|].
      split; [apply foldl_max_isMaximum_zero|].
      split; intros (o & Ho & Ho0); apply foldl_max_isMaximum_some;
        eexists; (split; [apply list_elem_of_fmap; by exists o|exact Ho0]).
Qed.

Lemma max_accumulation_clamped_witness :
  observations "api-1" "app" (concat apiSamples) <> [] /\
  (exists o, o ∈ observations "api-1" "app" (concat apiSamples) /\ 0 <= cu_Cpu o) /\
  exists cm,
    containerEntry (md_PodMetrics (foldPodSamples newMetricsData apiSamples))
      "api-1" "app" = Some cm
    /\ isMaximum (cm_MaxCPU cm) (cu_Cpu <$> observations "api-1" "app" (concat apiSamples)).
Proof.
  assert (observations "api-1" "app" (concat apiSamples) <> []) as Hobs
    by (vm_compute; discriminate).
  assert (exists o, o ∈ observations "api-1" "app" (concat apiSamples) /\ 0 <= cu_Cpu o)
    as Hsome.
  { exists (mkContainerUsage "app" 120 (30 * Mi)). split; [|simpl; lia].
    apply list_elem_of_filter. split; [reflexivity|]. simpl. apply elem_of_cons. by left. }
  split; [exact Hobs|]. split; [exact Hsome|].
  destruct (max_accumulation_clamped apiSamples workerSamples) as (_ & Hfinal & _).
  destruct (Hfinal "api-1" "app") as [_ Hentry].
  destruct (Hentry Hobs) as (cm & Hcm & _ & _ & Hcpu & _).
  exists cm. split; [exact Hcm|exact (Hcpu Hsome)].
Defined.

(** The snapshot left by the loop is the fold of the successful samples of
    its iterations, pods and nodes apart. *)
Lemma samplingLoop_snapshot (mc : MetricsClient) (n : nat) :
  forall (i iterations : Z) (metrics : MetricsData) (w : World),
    md_PodMetrics (samplingLoop mc n i iterations metrics w).1 =
      md_PodMetrics (foldPodSamples metrics (podSamplesOf mc n (podCalls w)))
    /\ md_NodeMetrics (samplingLoop mc n i iterations metrics w).1 =
      md_NodeMetrics (foldNodeSamples metrics
                        (nodeSamplesOf mc n (podCalls w) (nodeCalls w))).
Proof.
  induction n as [|n IH]; intros i iterations metrics w; [done|].
  cbn [samplingLoop podSamplesOf nodeSamplesOf].
  unfold mbind at 1 2, IO_bind at 1 2. rewrite iteration_cases. cbv zeta.
  destruct (PodMetricsesList mc (podCalls w)) as [podItems|e].
  - destruct (NodeMetricsesList mc (nodeCalls w)) as [nodeItems|e];
      (match goal with |- context [samplingLoop mc n ?i' iterations ?m ?w'] =>
         destruct (IH i' iterations m w') as [-> ->] end);
      cbn [nodeCalls podCalls]; split;
      rewrite ?(proj1 (foldPodSamples_pods _ _)), ?(proj1 (foldNodeSamples_nodes _ _));
      cbn [concat foldPodItems foldNodeItems md_PodMetrics md_NodeMetrics];
      rewrite ?foldl_app; reflexivity.
  - match goal with |- context [samplingLoop mc n ?i' iterations ?m ?w'] =>
      destruct (IH i' iterations m w') as [-> ->] end.
    cbn [nodeCalls podCalls]. split; reflexivity.
Qed.

(** ** The ownership resolver *)

Lemma deploymentOwner_none (rsOwners : list OwnerReference) :
  Forall (λ rsOwner, or_Kind rsOwner <> "Deployment") rsOwners ->
  deploymentOwner rsOwners = None.
Proof.
  induction 1 as [|rsOwner rest Hkind _ IH]; simpl; [done|].
  by rewrite decide_False.
Qed.

Lemma scanOwners_none (cs : Clientset) (namespace : string) (owners : list OwnerReference) :
  Forall (λ owner,
            or_Kind owner = "ReplicaSet" ->
            match ReplicaSetsGet cs namespace (or_Name owner) with
            | Err _ => True
            | Ok rsOwners => Forall (λ rsOwner, or_Kind rsOwner <> "Deployment") rsOwners
            end) owners ->
  scanOwners cs namespace owners = EmptyString.
Proof.
  induction 1 as [|owner rest Howner _ IH]; simpl; [done|].
  case_decide as Hkind; [|done].
  specialize (Howner Hkind).
  destruct (ReplicaSetsGet cs namespace (or_Name owner)) as [rsOwners|e]; [|done].
  by rewrite (deploymentOwner_none rsOwners Howner).
Qed.

Lemma aggregateLoop_app (cs : Clientset) (metrics : MetricsData) (before after : list Pod) :
  forall dms : gmap string DeploymentMetrics,
    aggregateLoop cs metrics dms (before ++ after) =
      match aggregateLoop cs metrics dms before with
      | Done dms' => aggregateLoop cs metrics dms' after
      | Panic => Panic
      end.
Proof.
  induction before as [|pod before IH]; intros dms; simpl; [done|].
  destruct (aggregatePod cs metrics dms pod); [apply IH|done].
Qed.

(** C8. A pod none of whose owner references leads to a deployment (no
    reference of kind "ReplicaSet", or replica sets without an owner of kind
    "Deployment", a replica set that cannot be fetched counting as no match)
    resolves to the empty name, leaves every aggregate as it is, and can be
    removed from the pod list without changing the result. A failed fetch
    makes the scan go on with the remaining references. *)
Theorem unowned_pod_excluded (cs : Clientset) (pod : Pod) :
  noDeploymentOwner cs pod ->
  getDeploymentForPod cs pod = (EmptyString, None)
  /\ (forall metrics dms, aggregatePod cs metrics dms pod = Done dms)
  /\ (forall metrics before after,
        aggregateDeploymentMetrics cs (before ++ pod :: after) metrics =
        aggregateDeploymentMetrics cs (before ++ after) metrics)
  /\ (forall owner rest e,
        or_Kind owner = "ReplicaSet" ->
        ReplicaSetsGet cs (p_Namespace pod) (or_Name owner) = Err e ->
        scanOwners cs (p_Namespace pod) (owner :: rest) =
        scanOwners cs (p_Namespace pod) rest).
Proof.
  intros Hnone.
  assert (getDeploymentForPod cs pod = (EmptyString, None)) as Hget.
  { unfold getDeploymentForPod. by rewrite (scanOwners_none cs _ _ Hnone). }
  assert (forall metrics dms, aggregatePod cs metrics dms pod = Done dms) as Hskip.
  { intros metrics dms. unfold aggregatePod. by rewrite Hget. }
  split; [exact Hget|]. split; [exact Hskip|]. split.
  - intros metrics before after. unfold aggregateDeploymentMetrics.
    rewrite !aggregateLoop_app.
    destruct (aggregateLoop cs metrics ∅ before) as [dms|]; [|done].
    simpl. by rewrite Hskip.
  - intros owner rest e Hkind Herr. simpl. rewrite decide_True by done. by rewrite Herr.
Qed.

Lemma unowned_pod_excluded_witness :
  noDeploymentOwner webClientset orphanPod /\
  getDeploymentForPod webClientset orphanPod = (EmptyString, None) /\
  aggregateDeploymentMetrics webClientset (orphanPod :: webPods) webSnapshot =
  aggregateDeploymentMetrics webClientset webPods webSnapshot.
Proof.
  assert (noDeploymentOwner webClientset orphanPod) as Hnone.
  { unfold noDeploymentOwner. simpl. repeat constructor; simpl; intros; done. }
  split; [exact Hnone|].
  destruct (unowned_pod_excluded webClientset orphanPod Hnone) as (Hget & _ & Hdrop & _).
  split; [exact Hget|]. exact (Hdrop webSnapshot [] webPods).
Defined.

(** ** The aggregator: counting pods without limits *)

Lemma IsZero_spec (q : Z) : IsZero q = true <-> q = 0.
Proof. unfold IsZero. apply Z.eqb_eq. Qed.

Lemma hasLimits_false_iff (containers : list Container) :
  hasLimits containers = false <-> Exists lacksLimits containers.
Proof.
  induction containers as [|c rest IH]; simpl.
  - split; [done|]. intros H. inversion H.
  - destruct (IsZero (Cpu (c_Limits c)) || IsZero (Memory (c_Limits c))) eqn:Hzero.
    + split; [|done]. intros _. apply Exists_cons_hd. unfold lacksLimits.
      apply orb_true_iff in Hzero as [H|H]; apply IsZero_spec in H; auto.
    + rewrite IH. apply orb_false_iff in Hzero as [Hc Hm].
      split; [by apply Exists_cons_tl|].
      intros H. apply Exists_cons in H as [[H|H]|H]; [| |done].
      * apply IsZero_spec in H. congruence.
      * apply IsZero_spec in H. congruence.
Qed.

Lemma hasLimits_true_iff (containers : list Container) :
  hasLimits containers = true <-> ~ Exists lacksLimits containers.
Proof.
  rewrite <- hasLimits_false_iff. destruct (hasLimits containers); split; congruence.
Qed.

(** The loop over the container entries changes the two maxima only. *)
Lemma foldl_addContainerMetrics_fields (l : list ContainerMetrics) :
  forall st : usageLoop,
    let dm := ul_dm st in
    let dm' := ul_dm (foldl addContainerMetrics st l) in
    dm_Name dm' = dm_Name dm /\ dm_Namespace dm' = dm_Namespace dm
    /\ dm_Pods dm' = dm_Pods dm /\ dm_TotalPods dm' = dm_TotalPods dm
    /\ dm_PodsWithoutLimits dm' = dm_PodsWithoutLimits dm
    /\ dm_AvgCPU dm' = dm_AvgCPU dm /\ dm_AvgMemory dm' = dm_AvgMemory dm
    /\ dm_Recommendations dm' = dm_Recommendations dm.
Proof.
  induction l as [|cm l IH]; intros st; simpl; [by repeat split|].
  destruct (IH (addContainerMetrics st cm)) as (-> & -> & -> & -> & -> & -> & -> & ->).
  by repeat split.
Qed.

Lemma foldPodUsage_fields (dm dm' : DeploymentMetrics) (podMetrics : PodMetrics) :
  foldPodUsage dm podMetrics = Done dm' ->
  dm_Name dm' = dm_Name dm /\ dm_Namespace dm' = dm_Namespace dm
  /\ dm_Pods dm' = dm_Pods dm /\ dm_TotalPods dm' = dm_TotalPods dm
  /\ dm_PodsWithoutLimits dm' = dm_PodsWithoutLimits dm
  /\ dm_Recommendations dm' = dm_Recommendations dm.
Proof.
  unfold foldPodUsage. destruct (_ =? 0); [done|]. intros [= <-].
  destruct (foldl_addContainerMetrics_fields
              (map_to_list (pm_Containers podMetrics)).*2 (mkUsageLoop dm 0 0))
    as (Hn & Hns & Hp & Ht & Hw & _ & _ & Hr).
  simpl in *. by repeat split.
Qed.

(** The division goes through exactly when the entry has a container. *)
Lemma foldPodUsage_panics_iff (dm : DeploymentMetrics) (podMetrics : PodMetrics) :
  foldPodUsage dm podMetrics = Panic <-> pm_Containers podMetrics = ∅.
Proof.
  unfold foldPodUsage. rewrite <- map_size_empty_iff.
  destruct (Z.eqb_spec (Z.of_nat (size (pm_Containers podMetrics))) 0) as [H0|H0].
  - split; [lia|done].
  - split; [done|]. intros Hsz. rewrite Hsz in H0. done.
Qed.

(** C9. A pod that resolves to a deployment and whose snapshot entry, if
    any, has a container is folded into the aggregate of its key, and it
    raises [PodsWithoutLimits] by one exactly when one of its containers
    lacks a non-zero CPU limit or a non-zero memory limit. One container
    with a zero CPU limit is enough, whatever its memory limit; a pod
    without containers counts as having limits. *)
Theorem podsWithoutLimits_counts (cs : Clientset) (metrics : MetricsData)
    (dms : gmap string DeploymentMetrics) (pod : Pod) (d : string) :
  scanOwners cs (p_Namespace pod) (p_OwnerReferences pod) = d ->
  d <> EmptyString ->
  entryDivides metrics pod ->
  let key := deploymentKey (p_Namespace pod) d in
  let before :=
    dm_PodsWithoutLimits (default (newDeploymentMetrics d (p_Namespace pod)) (dms !! key)) in
  (exists dms' dm',
      aggregatePod cs metrics dms pod = Done dms' /\ dms' !! key = Some dm'
      /\ (dm_PodsWithoutLimits dm' = before + 1 <-> Exists lacksLimits (p_Containers pod))
      /\ (dm_PodsWithoutLimits dm' = before <-> ~ Exists lacksLimits (p_Containers pod)))
  /\ (forall name mem, hasLimits [mkContainer name (limits 0 mem)] = false)
  /\ hasLimits [] = true.
Proof.
  intros Hd Hne Hentry key before. split; [|split; [intros; reflexivity|reflexivity]].
  unfold aggregatePod, getDeploymentForPod. rewrite Hd, decide_False by done.
  fold key. set (dm0 := default _ (dms !! key)).
  assert (dm_PodsWithoutLimits (countPod dm0 pod) =
          before + (if hasLimits (p_Containers pod) then 0 else 1)) as Hcount.
  { unfold countPod. destruct (hasLimits (p_Containers pod)); simpl; subst before dm0; lia. }
  assert (forall v,
             v = before + (if hasLimits (p_Containers pod) then 0 else 1) ->
             (v = before + 1 <-> Exists lacksLimits (p_Containers pod))
             /\ (v = before <-> ~ Exists lacksLimits (p_Containers pod))) as Hiff.
  { intros v ->. rewrite <- hasLimits_false_iff.
    destruct (hasLimits (p_Containers pod)); simpl; split; split; intros;
      try done; try lia; try congruence. }
  unfold entryDivides in Hentry.
  destruct (md_PodMetrics metrics !! p_Name pod) as [podMetrics|].
  - destruct (foldPodUsage (countPod dm0 pod) podMetrics) as [dm'|] eqn:Hfold.
    + exists (<[key := dm']> dms), dm'. split; [done|]. split; [apply lookup_insert_eq|].
      apply Hiff. destruct (foldPodUsage_fields _ _ _ Hfold) as (_ & _ & _ & _ & -> & _).
      exact Hcount.
    + by apply foldPodUsage_panics_iff in Hfold.
  - exists (<[key := countPod dm0 pod]> dms), (countPod dm0 pod).
    split; [done|]. split; [apply lookup_insert_eq|]. by apply Hiff.
Qed.

Lemma podsWithoutLimits_counts_witness :
  scanOwners webClientset "ns" [mkOwnerReference "ReplicaSet" "web-abc"] = "web" /\
  "web" <> EmptyString /\
  entryDivides webSnapshot (webPod "web-2" [mkContainer "app" {["cpu" := 500]}]) /\
  exists dms' dm',
    aggregatePod webClientset webSnapshot ∅
      (webPod "web-2" [mkContainer "app" {["cpu" := 500]}]) = Done dms'
    /\ dms' !! "ns/web" = Some dm'
    /\ (dm_PodsWithoutLimits dm' = 0 + 1 <->
        Exists lacksLimits [mkContainer "app" {["cpu" := 500]}]).
Proof.
  assert (entryDivides webSnapshot (webPod "web-2" [mkContainer "app" {["cpu" := 500]}]))
    as Hentry.
  { unfold entryDivides. vm_compute. discriminate. }
  split; [reflexivity|]. split; [discriminate|]. split; [exact Hentry|].
  destruct (podsWithoutLimits_counts webClientset webSnapshot ∅
              (webPod "web-2" [mkContainer "app" {["cpu" := 500]}]) "web"
              eq_refl ltac:(discriminate) Hentry)
    as ((dms' & dm' & Hrun & Hkey & Hinc & _) & _).
  exists dms', dm'. split; [exact Hrun|]. split; [exact Hkey|exact Hinc].
Defined.

(** ** The snapshot is keyed by pod name *)

(** Two pods named alike in two namespaces: each deployment is charged the
    maxima of both. *)
Example same_name_two_namespaces :
  let snapshot := foldPodItems newMetricsData [blueItem; greenItem] in
  match aggregateDeploymentMetrics webClientset [bluePod; greenPod] snapshot with
  | Done dms =>
      (dm_MaxCPU <$> dms !! "blue/web") = Some 300
      /\ (dm_MaxMemory <$> dms !! "blue/web") = Some (20 * Mi)
      /\ (dm_MaxCPU <$> dms !! "green/web") = Some 300
      /\ (dm_MaxMemory <$> dms !! "green/web") = Some (20 * Mi)
  | Panic => False
  end.
Proof. vm_compute. repeat split. Qed.

(** ** The aggregator: averages *)

(** The pod of an entry without containers stops the aggregation, whatever
    was aggregated before it. *)
Lemma aggregatePod_empty_entry (cs : Clientset) (metrics : MetricsData)
    (dms : gmap string DeploymentMetrics) (pod : Pod) (podMetrics : PodMetrics) :
  scanOwners cs (p_Namespace pod) (p_OwnerReferences pod) <> EmptyString ->
  md_PodMetrics metrics !! p_Name pod = Some podMetrics ->
  pm_Containers podMetrics = ∅ ->
  aggregatePod cs metrics dms pod = Panic.
Proof.
  intros Hd Hentry Hempty. unfold aggregatePod, getDeploymentForPod.
  rewrite decide_False by done. rewrite Hentry.
  by rewrite (proj2 (foldPodUsage_panics_iff _ podMetrics) Hempty).
Qed.

Lemma foldl_addContainerMetrics_totals (l : list ContainerMetrics) :
  forall st : usageLoop,
    ul_totalCPU (foldl addContainerMetrics st l) =
      foldl (λ total cm, wrap64 (total + cm_MaxCPU cm)) (ul_totalCPU st) l
    /\ ul_totalMemory (foldl addContainerMetrics st l) =
      foldl (λ total cm, wrap64 (total + cm_MaxMemory cm)) (ul_totalMemory st) l.
Proof.
  induction l as [|cm l IH]; intros st; simpl; [done|].
  destruct (IH (addContainerMetrics st cm)) as [-> ->]. done.
Qed.

(** The averages left by [foldPodUsage] are those of the entry just folded:
    nothing of the aggregate's earlier pods enters them. *)
Lemma foldPodUsage_average (dm dm' : DeploymentMetrics) (podMetrics : PodMetrics) :
  foldPodUsage dm podMetrics = Done dm' ->
  let entries := (map_to_list (pm_Containers podMetrics)).*2 in
  let n := Z.of_nat (size (pm_Containers podMetrics)) in
  dm_AvgCPU dm' = Z.quot (foldl (λ total cm, wrap64 (total + cm_MaxCPU cm)) 0 entries) n
  /\ dm_AvgMemory dm' =
       Z.quot (foldl (λ total cm, wrap64 (total + cm_MaxMemory cm)) 0 entries) n.
Proof.
  unfold foldPodUsage. destruct (_ =? 0); [done|]. intros [= <-]. simpl.
  destruct (foldl_addContainerMetrics_totals
              (map_to_list (pm_Containers podMetrics)).*2 (mkUsageLoop dm 0 0)) as [-> ->].
  done.
Qed.

(** C1. A pod that the Metrics Server has listed without containers has an
    entry with no container in the snapshot; when it belongs to a deployment,
    the division by the number of its containers is not guarded and the
    aggregation panics. *)
Theorem aggregate_empty_entry_panics :
  md_PodMetrics startingSnapshot !! "web-1" = Some (mkPodMetrics 0 0 "ns" ∅)
  /\ aggregateDeploymentMetrics webClientset
       [webPod "web-1" [mkContainer "app" (limits 500 (64 * Mi))]] startingSnapshot
     = Panic.
Proof. split; vm_compute; reflexivity. Qed.

(** C2. On the scenario of the specification the aggregate of "ns/web" ends
    with the averages of the last pod folded, 150m and 40Mi, while the
    observed maxima sum to 450m and 150Mi over three containers: the memory
    average is not 50Mi. *)
Theorem aggregate_average_is_last_pod :
  aggregateDeploymentMetrics webClientset webPods webSnapshot =
    Done {[ "ns/web" :=
              mkDeploymentMetrics "web" "ns" ["web-1"; "web-2"; "web-3"]
                200 (60 * Mi) 150 (40 * Mi) 3 1 [] ]}
  /\ Z.quot (50 * Mi + 60 * Mi + 40 * Mi) 3 = 50 * Mi
  /\ 40 * Mi <> 50 * Mi.
Proof. split; [vm_compute; reflexivity|]. split; [reflexivity|discriminate]. Qed.

(** C3. The same three pods in the opposite order give other averages:
    100m and 50Mi instead of 150m and 40Mi. *)
Theorem aggregate_average_depends_on_order :
  Permutation webPods (reverse webPods)
  /\ aggregateDeploymentMetrics webClientset webPods webSnapshot =
       Done {[ "ns/web" :=
                 mkDeploymentMetrics "web" "ns" ["web-1"; "web-2"; "web-3"]
                   200 (60 * Mi) 150 (40 * Mi) 3 1 [] ]}
  /\ aggregateDeploymentMetrics webClientset (reverse webPods) webSnapshot =
       Done {[ "ns/web" :=
                 mkDeploymentMetrics "web" "ns" ["web-3"; "web-2"; "web-1"]
                   200 (60 * Mi) 100 (50 * Mi) 3 1 [] ]}.
Proof.
  split; [symmetry; apply reverse_Permutation|]. split; vm_compute; reflexivity.
Qed.

(** ** The aggregator: what does not depend on the order *)

Lemma wrap64_add_l (x y : Z) : wrap64 (wrap64 x + y) = wrap64 (x + y).
Proof.
  unfold wrap64. f_equal.
  replace ((x + 2 ^ 63) mod 2 ^ 64 - 2 ^ 63 + y + 2 ^ 63)
    with ((x + 2 ^ 63) mod 2 ^ 64 + y) by lia.
  rewrite Zplus_mod_idemp_l. f_equal. lia.
Qed.

Lemma foldl_comm_permutation {A B : Type} (f : B -> A -> B) :
  (forall b x y, f (f b x) y = f (f b y) x) ->
  forall l l', Permutation l l' -> forall b, foldl f b l = foldl f b l'.
Proof.
  intros Hcomm l l' Hperm.
  induction Hperm as [|x l l' _ IH|x y l|l l' l'' _ IH1 _ IH2]; intros b; simpl.
  - reflexivity.
  - apply IH.
  - by rewrite Hcomm.
  - by rewrite IH1.
Qed.

Lemma addContainerMetrics_comm (st : usageLoop) (a b : ContainerMetrics) :
  addContainerMetrics (addContainerMetrics st a) b =
  addContainerMetrics (addContainerMetrics st b) a.
Proof.
  unfold addContainerMetrics, setMax. simpl. rewrite !ltb_max, !wrap64_add_l.
  f_equal; [f_equal; lia | f_equal; lia | f_equal; lia].
Qed.

(** The order in which the container entries of a pod are visited (Go
    leaves the order of a [range] over a map open) does not show. *)
Lemma foldContainers_order (st : usageLoop) (l l' : list ContainerMetrics) :
  Permutation l l' ->
  foldl addContainerMetrics st l = foldl addContainerMetrics st l'.
Proof.
  intros Hperm. apply foldl_comm_permutation; [|done].
  intros; apply addContainerMetrics_comm.
Qed.

Lemma foldl_max_comm (l1 l2 : list Z) (x : Z) :
  foldl Z.max (foldl Z.max x l1) l2 = foldl Z.max (foldl Z.max x l2) l1.
Proof.
  rewrite <- !foldl_app. apply foldl_comm_permutation.
  - intros; lia.
  - apply Permutation_app_comm.
Qed.

Lemma foldl_addContainerMetrics_max (l : list ContainerMetrics) :
  forall st : usageLoop,
    dm_MaxCPU (ul_dm (foldl addContainerMetrics st l)) =
      foldl Z.max (dm_MaxCPU (ul_dm st)) (cm_MaxCPU <$> l)
    /\ dm_MaxMemory (ul_dm (foldl addContainerMetrics st l)) =
      foldl Z.max (dm_MaxMemory (ul_dm st)) (cm_MaxMemory <$> l).
Proof.
  induction l as [|cm l IH]; intros st; simpl; [done|].
  destruct (IH (addContainerMetrics st cm)) as [-> ->].
  simpl. by rewrite !ltb_max.
Qed.

Lemma countPod_summary (dm : DeploymentMetrics) (pod : Pod) :
  summary (countPod dm pod) =
    mkSummary (dm_MaxCPU dm) (dm_MaxMemory dm) (dm_TotalPods dm + 1)
      (dm_PodsWithoutLimits dm + if hasLimits (p_Containers pod) then 0 else 1).
Proof.
  unfold countPod, summary. destruct (hasLimits (p_Containers pod)); simpl; f_equal; lia.
Qed.

(** On the summaries, one pod of the loop is [summarisePod]. *)
Lemma aggregatePod_summaries (cs : Clientset) (metrics : MetricsData)
    (dms : gmap string DeploymentMetrics) (pod : Pod) :
  summaries (aggregatePod cs metrics dms pod) =
  summarisePod cs metrics (summary <$> dms) pod.
Proof.
  unfold aggregatePod, summarisePod, getDeploymentForPod, podPanics, podSummary.
  set (d := scanOwners cs (p_Namespace pod) (p_OwnerReferences pod)).
  destruct (decide (d = EmptyString)) as [Hd|Hd]; [done|].
  set (key := deploymentKey (p_Namespace pod) d).
  rewrite lookup_fmap.
  set (dm0 := default (newDeploymentMetrics d (p_Namespace pod)) (dms !! key)).
  assert (default (mkSummary 0 0 0 0) (summary <$> dms !! key) = summary dm0) as ->.
  { subst dm0. by destruct (dms !! key). }
  pose proof (countPod_summary dm0 pod) as Hcount.
  destruct (md_PodMetrics metrics !! p_Name pod) as [podMetrics|].
  - unfold foldPodUsage.
    destruct (Z.of_nat (size (pm_Containers podMetrics)) =? 0); [done|].
    simpl. rewrite fmap_insert. do 2 f_equal.
    set (l := (map_to_list (pm_Containers podMetrics)).*2).
    destruct (foldl_addContainerMetrics_max l (mkUsageLoop (countPod dm0 pod) 0 0))
      as [Hcpu Hmem].
    destruct (foldl_addContainerMetrics_fields l (mkUsageLoop (countPod dm0 pod) 0 0))
      as (_ & _ & _ & Htotal & Hwithout & _).
    simpl in *. unfold summary at 1. simpl.
    rewrite Hcpu, Hmem, Htotal, Hwithout.
    injection Hcount as -> -> -> ->. reflexivity.
  - simpl. rewrite fmap_insert. do 2 f_equal. rewrite Hcount. reflexivity.
Qed.

Lemma podSummary_comm (metrics : MetricsData) (p q : Pod) (s : Summary) :
  podSummary metrics q (podSummary metrics p s) =
  podSummary metrics p (podSummary metrics q s).
Proof.
  unfold podSummary. simpl. f_equal; try apply foldl_max_comm; lia.
Qed.

Lemma summarisePod_comm (cs : Clientset) (metrics : MetricsData)
    (a : gmap string Summary) (p q : Pod) :
  match summarisePod cs metrics a p with
  | Done a' => summarisePod cs metrics a' q
  | Panic => Panic
  end =
  match summarisePod cs metrics a q with
  | Done a' => summarisePod cs metrics a' p
  | Panic => Panic
  end.
Proof.
  unfold summarisePod.
  set (dp := scanOwners cs (p_Namespace p) (p_OwnerReferences p)).
  set (dq := scanOwners cs (p_Namespace q) (p_OwnerReferences q)).
  set (kp := deploymentKey (p_Namespace p) dp).
  set (kq := deploymentKey (p_Namespace q) dq).
  destruct (decide (dp = EmptyString)), (decide (dq = EmptyString)),
    (podPanics metrics p) eqn:Hp, (podPanics metrics q) eqn:Hq;
    rewrite ?Hp, ?Hq; try reflexivity.
  f_equal. destruct (decide (kp = kq)) as [Heq|Hne].
  - rewrite Heq, !lookup_insert_eq, !insert_insert_eq. simpl.
    by rewrite podSummary_comm.
  - rewrite lookup_insert_ne by done. rewrite lookup_insert_ne by done.
    by apply insert_insert_ne.
Qed.

Lemma aggregateLoop_summaries (cs : Clientset) (metrics : MetricsData) (pods : list Pod) :
  forall dms : gmap string DeploymentMetrics,
    summaries (aggregateLoop cs metrics dms pods) =
    summariseLoop cs metrics (summary <$> dms) pods.
Proof.
  induction pods as [|pod rest IH]; intros dms; simpl; [done|].
  rewrite <- aggregatePod_summaries.
  destruct (aggregatePod cs metrics dms pod) as [dms'|]; simpl; [apply IH|done].
Qed.

Lemma summariseLoop_permutation (cs : Clientset) (metrics : MetricsData)
    (pods pods' : list Pod) :
  Permutation pods pods' ->
  forall a, summariseLoop cs metrics a pods = summariseLoop cs metrics a pods'.
Proof.
  induction 1 as [|p l l' _ IH|p q l|l l' l'' _ IH1 _ IH2]; intros a; simpl.
  - reflexivity.
  - destruct (summarisePod cs metrics a p); [apply IH|done].
  - pose proof (summarisePod_comm cs metrics a q p) as Hcomm.
    destruct (summarisePod cs metrics a q) as [aq|], (summarisePod cs metrics a p) as [ap|];
      try done.
    + by rewrite Hcomm.
    + by rewrite Hcomm.
    + by rewrite <- Hcomm.
  - by rewrite IH1.
Qed.

(** X18. Whether the aggregation completes, the keys of the result and, for each
    key, the maxima, the number of pods and the number of pods without limits
    are the same for every order of the pod list. (The averages and the member
    list are not: see [aggregate_average_depends_on_order].) *)
Theorem aggregate_summaries_order (cs : Clientset) (metrics : MetricsData)
    (pods pods' : list Pod) :
  Permutation pods pods' ->
  summaries (aggregateDeploymentMetrics cs pods metrics) =
  summaries (aggregateDeploymentMetrics cs pods' metrics).
Proof.
  intros Hperm. unfold aggregateDeploymentMetrics.
  rewrite !aggregateLoop_summaries. by apply summariseLoop_permutation.
Qed.

(** ** The run as a whole *)

(** X11. After a successful probe [collectMetrics] returns a snapshot, which
    is the fold, from the empty snapshot, of the successful samples of its
    iterations: the pod samples of the iterations whose pod fetch succeeded,
    the node samples of those whose two fetches succeeded. *)
Theorem collectMetrics_snapshot (mc : MetricsClient) (period : Z) (w : World)
    (probed : list NodeMetricsItem) :
  NodeMetricsesList mc (nodeCalls w) = Ok probed ->
  let n := Z.to_nat (iterationsOf period) in
  exists metrics w',
    collectMetrics mc period w = (Ok metrics, w')
    /\ md_PodMetrics metrics =
         md_PodMetrics (foldPodSamples newMetricsData (podSamplesOf mc n (podCalls w)))
    /\ md_NodeMetrics metrics =
         md_NodeMetrics (foldNodeSamples newMetricsData
                           (nodeSamplesOf mc n (podCalls w) (S (nodeCalls w))))
    /\ podCalls w' = (n + podCalls w)%nat.
Proof.
  intros Hprobe n.
  unfold collectMetrics, checkMetricsServer, mbind, IO_bind, listNodeMetrics.
  rewrite Hprobe. simpl. fold n.
  set (w1 := mkWorld (S (nodeCalls w)) (podCalls w) (PrintedBanner period :: _)).
  pose proof (samplingLoop_snapshot mc n 0 (iterationsOf period) newMetricsData w1) as Hsnap.
  pose proof (samplingLoop_podCalls mc n 0 (iterationsOf period) newMetricsData w1) as Hcalls.
  destruct (samplingLoop mc n 0 (iterationsOf period) newMetricsData w1) as [metrics w'].
  exists metrics, w'. simpl in *. destruct Hsnap as [Hp Hn]. by repeat split.
Qed.

(** ** File names *)

Ltac byte_facts :=
  unfold isClean, isSafe, isWordChar, isHyphen, isASCII, isContinuation, acceptsSecond,
    leads2, leads3, leads4, inRange in *;
  repeat match goal with
         | |- context [if ?b then _ else _] => destruct b eqn:?
         end;
  rewrite ?orb_true_iff, ?andb_true_iff, ?orb_false_iff, ?andb_false_iff,
    ?negb_true_iff, ?negb_false_iff,
    ?N.leb_le, ?N.eqb_eq, ?N.ltb_lt, ?N.leb_gt, ?N.eqb_neq, ?N.ltb_ge in *;
  try lia.

Lemma isWordChar_ASCII (c : Ascii.ascii) : isWordChar c = true -> isASCII c = true.
Proof. byte_facts. Qed.

Lemma isSafe_ASCII (c : Ascii.ascii) : isSafe c = true -> isASCII c = true.
Proof. byte_facts. Qed.

Lemma isWordChar_safe (c : Ascii.ascii) : isWordChar c = true -> isSafe c = true.
Proof. unfold isSafe. intros ->. reflexivity. Qed.

Lemma isWordChar_not_hyphen (c : Ascii.ascii) : isHyphen c = true -> isWordChar c = false.
Proof.
  intros H. destruct (isWordChar c) eqn:Hw; [|done]. revert H Hw. byte_facts.
Qed.

Lemma isContinuation_not_word (c : Ascii.ascii) :
  isContinuation c = true -> isWordChar c = false.
Proof.
  intros H. destruct (isWordChar c) eqn:Hw; [|done]. revert H Hw. byte_facts.
Qed.

Lemma acceptsSecond_not_word (b0 b1 : Ascii.ascii) :
  acceptsSecond b0 b1 = true -> isWordChar b1 = false.
Proof.
  intros H. destruct (isWordChar b1) eqn:Hw; [|done]. revert H Hw. byte_facts.
Qed.

(** [replaceUnsafe], one rune at a time. *)
Lemma replaceUnsafe_cons (b0 : Ascii.ascii) (t0 : string) :
  replaceUnsafe (String b0 t0) =
    String (if isASCII b0 && isSafe b0 then b0 else hyphen)
           (replaceUnsafe (runeTail b0 t0)).
Proof.
  unfold runeTail. cbn [replaceUnsafe].
  destruct (isASCII b0); [reflexivity|]. cbn [andb].
  destruct t0 as [|b1 t1]; [reflexivity|].
  destruct (leads2 b0 && acceptsSecond b0 b1); [reflexivity|].
  destruct t1 as [|b2 t2]; [reflexivity|].
  destruct (leads3 b0 && acceptsSecond b0 b1 && isContinuation b2); [reflexivity|].
  destruct t2 as [|b3 t3]; [reflexivity|].
  destruct (leads4 b0 && acceptsSecond b0 b1 && isContinuation b2 && isContinuation b3);
    reflexivity.
Qed.

Lemma runeTail_length (b0 : Ascii.ascii) (t0 : string) :
  (String.length (runeTail b0 t0) <= String.length t0)%nat.
Proof.
  unfold runeTail. destruct (isASCII b0); [lia|].
  destruct t0 as [|b1 t1]; [simpl; lia|].
  destruct (leads2 b0 && acceptsSecond b0 b1); [simpl; lia|].
  destruct t1 as [|b2 t2]; [simpl; lia|].
  destruct (leads3 b0 && acceptsSecond b0 b1 && isContinuation b2); [simpl; lia|].
  destruct t2 as [|b3 t3]; [simpl; lia|].
  destruct (leads4 b0 && acceptsSecond b0 b1 && isContinuation b2 && isContinuation b3);
    simpl; lia.
Qed.

Lemma runeTail_wordChars (b0 : Ascii.ascii) (t0 : string) :
  wordChars (runeTail b0 t0) = wordChars t0.
Proof.
  unfold runeTail. destruct (isASCII b0); [done|].
  destruct t0 as [|b1 t1]; [done|].
  destruct (leads2 b0 && acceptsSecond b0 b1) eqn:H2.
  { apply andb_true_iff in H2 as [_ H2]. cbn [wordChars].
    by rewrite (acceptsSecond_not_word _ _ H2). }
  destruct t1 as [|b2 t2]; [done|].
  destruct (leads3 b0 && acceptsSecond b0 b1 && isContinuation b2) eqn:H3.
  { apply andb_true_iff in H3 as [H3 Hc2]. apply andb_true_iff in H3 as [_ Hc1].
    cbn [wordChars].
    by rewrite (acceptsSecond_not_word _ _ Hc1), (isContinuation_not_word _ Hc2). }
  destruct t2 as [|b3 t3]; [done|].
  destruct (leads4 b0 && acceptsSecond b0 b1 && isContinuation b2 && isContinuation b3)
    eqn:H4; [|done].
  apply andb_true_iff in H4 as [H4 Hc3]. apply andb_true_iff in H4 as [H4 Hc2].
  apply andb_true_iff in H4 as [_ Hc1]. cbn [wordChars].
  by rewrite (acceptsSecond_not_word _ _ Hc1), (isContinuation_not_word _ Hc2),
    (isContinuation_not_word _ Hc3).
Qed.

(** Induction on a string that may step over a whole rune. *)
Lemma rune_ind (P : string -> Prop) :
  P EmptyString ->
  (forall b0 t0, P (runeTail b0 t0) -> P (String b0 t0)) ->
  forall s, P s.
Proof.
  intros Hnil Hcons s.
  assert (forall n s, (String.length s <= n)%nat -> P s) as Hall.
  { clear s. induction n as [|n IH]; intros [|b0 t0] Hlen; simpl in Hlen;
      try apply Hnil; try lia.
    apply Hcons, IH. pose proof (runeTail_length b0 t0). lia. }
  by apply (Hall (String.length s)).
Qed.

Lemma replaceUnsafe_allSafe (s : string) : allSafe (replaceUnsafe s) = true.
Proof.
  induction s as [|b0 t0 IH] using rune_ind; [done|].
  rewrite replaceUnsafe_cons. cbn [allSafe]. rewrite IH, andb_true_r.
  destruct (isASCII b0), (isSafe b0) eqn:Hs; done.
Qed.

Lemma replaceUnsafe_wordChars (s : string) : wordChars (replaceUnsafe s) = wordChars s.
Proof.
  induction s as [|b0 t0 IH] using rune_ind; [done|].
  rewrite replaceUnsafe_cons. cbn [wordChars]. rewrite IH, runeTail_wordChars.
  destruct (isWordChar b0) eqn:Hw.
  - rewrite (isWordChar_ASCII _ Hw), (isWordChar_safe _ Hw). cbn [andb]. by rewrite Hw.
  - destruct (isASCII b0 && isSafe b0); [by rewrite Hw|done].
Qed.

Lemma replaceUnsafe_length (s : string) :
  (String.length (replaceUnsafe s) <= String.length s)%nat.
Proof.
  induction s as [|b0 t0 IH] using rune_ind; [done|].
  rewrite replaceUnsafe_cons. pose proof (runeTail_length b0 t0). simpl. lia.
Qed.

Lemma replaceUnsafe_id (s : string) : allSafe s = true -> replaceUnsafe s = s.
Proof.
  induction s as [|c t IH]; [done|]. cbn [allSafe replaceUnsafe].
  intros [Hc Ht]%andb_true_iff. by rewrite (isSafe_ASCII _ Hc), Hc, IH.
Qed.

Lemma collapseFrom_allSafe (s : string) :
  forall inRun, allSafe s = true -> allSafe (collapseFrom inRun s) = true.
Proof.
  induction s as [|c t IH]; intros inRun; [done|]. cbn [allSafe collapseFrom].
  intros [Hc Ht]%andb_true_iff.
  destruct (isHyphen c), inRun; cbn [allSafe]; rewrite ?Hc, ?IH; done.
Qed.

Lemma collapseFrom_wordChars (s : string) :
  forall inRun, wordChars (collapseFrom inRun s) = wordChars s.
Proof.
  induction s as [|c t IH]; intros inRun; [done|]. cbn [collapseFrom wordChars].
  destruct (isHyphen c) eqn:Hc.
  - rewrite (isWordChar_not_hyphen _ Hc).
    destruct inRun; cbn [wordChars]; rewrite ?(isWordChar_not_hyphen _ Hc); apply IH.
  - cbn [wordChars]. by rewrite IH.
Qed.

Lemma collapseFrom_length (s : string) :
  forall inRun, (String.length (collapseFrom inRun s) <= String.length s)%nat.
Proof.
  induction s as [|c t IH]; intros inRun; [done|]. cbn [collapseFrom].
  pose proof (IH true). pose proof (IH false).
  destruct (isHyphen c), inRun; simpl; lia.
Qed.

Lemma collapseFrom_shape (s : string) :
  forall inRun,
    hasDoubleHyphen (collapseFrom inRun s) = false
    /\ (inRun = true -> startsWithHyphen (collapseFrom inRun s) = false).
Proof.
  induction s as [|c t IH]; intros inRun; [done|]. cbn [collapseFrom].
  destruct (IH true) as [Hd1 Hs1]. destruct (IH false) as [Hd0 _].
  destruct (isHyphen c) eqn:Hc.
  - destruct inRun; [by split|].
    cbn [hasDoubleHyphen]. rewrite Hc, (Hs1 eq_refl), Hd1. by split.
  - cbn [hasDoubleHyphen startsWithHyphen]. rewrite Hc, Hd0. by split.
Qed.

Lemma collapseFrom_id (s : string) :
  forall inRun,
    hasDoubleHyphen s = false ->
    (inRun = true -> startsWithHyphen s = false) ->
    collapseFrom inRun s = s.
Proof.
  induction s as [|c t IH]; intros inRun Hd Hs; [done|].
  cbn [collapseFrom hasDoubleHyphen startsWithHyphen] in *.
  apply orb_false_iff in Hd as [Hct Hd].
  destruct (isHyphen c) eqn:Hc.
  - destruct inRun; [by specialize (Hs eq_refl)|].
    rewrite IH; [done|done|]. intros _. by destruct (startsWithHyphen t).
  - by rewrite IH.
Qed.

Lemma trimLeftByte_starts (s : string) : startsWithHyphen (trimLeftByte s) = false.
Proof.
  induction s as [|c t IH]; [done|]. cbn [trimLeftByte].
  destruct (isHyphen c) eqn:Hc; [done|]. cbn [startsWithHyphen]. done.
Qed.

Lemma trimLeftByte_id (s : string) : startsWithHyphen s = false -> trimLeftByte s = s.
Proof. destruct s as [|c t]; [done|]. simpl. by intros ->. Qed.

Lemma trimLeftByte_allSafe (s : string) :
  allSafe s = true -> allSafe (trimLeftByte s) = true.
Proof.
  induction s as [|c t IH]; [done|]. cbn [trimLeftByte].
  destruct (isHyphen c); [|done]. cbn [allSafe]. intros [_ Ht]%andb_true_iff. by apply IH.
Qed.

Lemma trimLeftByte_wordChars (s : string) : wordChars (trimLeftByte s) = wordChars s.
Proof.
  induction s as [|c t IH]; [done|]. cbn [trimLeftByte].
  destruct (isHyphen c) eqn:Hc; [|done]. cbn [wordChars].
  by rewrite (isWordChar_not_hyphen _ Hc).
Qed.

Lemma trimLeftByte_length (s : string) :
  (String.length (trimLeftByte s) <= String.length s)%nat.
Proof.
  induction s as [|c t IH]; [done|]. cbn [trimLeftByte].
  destruct (isHyphen c); simpl; lia.
Qed.

Lemma trimLeftByte_double (s : string) :
  hasDoubleHyphen s = false -> hasDoubleHyphen (trimLeftByte s) = false.
Proof.
  induction s as [|c t IH]; [done|]. cbn [trimLeftByte].
  destruct (isHyphen c); [|done]. cbn [hasDoubleHyphen].
  intros [_ Ht]%orb_false_iff. by apply IH.
Qed.

Lemma trimLeftByte_ends (s : string) :
  endsWithHyphen s = false -> endsWithHyphen (trimLeftByte s) = false.
Proof.
  induction s as [|c t IH]; [done|]. cbn [trimLeftByte].
  destruct (isHyphen c) eqn:Hc; [|done].
  intros He. apply IH. destruct t; [done|exact He].
Qed.

Lemma trimRightByte_cons (c : Ascii.ascii) (t : string) :
  trimRightByte (String c t) =
    if isHyphen c && match trimRightByte t with EmptyString => true | _ => false end
    then EmptyString else String c (trimRightByte t).
Proof.
  cbn [trimRightByte]. destruct (trimRightByte t), (isHyphen c); reflexivity.
Qed.

Lemma trimRightByte_ends (s : string) : endsWithHyphen (trimRightByte s) = false.
Proof.
  induction s as [|c t IH]; [done|]. rewrite trimRightByte_cons.
  destruct (trimRightByte t) as [|c' t'] eqn:Ht.
  - destruct (isHyphen c) eqn:Hc; [done|]. simpl. exact Hc.
  - rewrite andb_false_r. exact IH.
Qed.

Lemma trimRightByte_id (s : string) : endsWithHyphen s = false -> trimRightByte s = s.
Proof.
  induction s as [|c t IH]; [done|]. rewrite trimRightByte_cons. intros He.
  destruct t as [|c' t'].
  - simpl in *. by rewrite He.
  - rewrite IH by exact He. by rewrite andb_false_r.
Qed.

Lemma trimRightByte_allSafe (s : string) :
  allSafe s = true -> allSafe (trimRightByte s) = true.
Proof.
  induction s as [|c t IH]; [done|]. rewrite trimRightByte_cons. cbn [allSafe].
  intros [Hc Ht]%andb_true_iff.
  destruct (isHyphen c && _); [done|]. cbn [allSafe]. by rewrite Hc, IH.
Qed.

Lemma trimRightByte_wordChars (s : string) : wordChars (trimRightByte s) = wordChars s.
Proof.
  induction s as [|c t IH]; [done|]. rewrite trimRightByte_cons. cbn [wordChars].
  destruct (isHyphen c) eqn:Hc.
  - rewrite (isWordChar_not_hyphen _ Hc), <- IH.
    destruct (trimRightByte t); cbn [andb wordChars];
      rewrite ?(isWordChar_not_hyphen _ Hc); done.
  - cbn [andb wordChars]. by rewrite IH.
Qed.

Lemma trimRightByte_length (s : string) :
  (String.length (trimRightByte s) <= String.length s)%nat.
Proof.
  induction s as [|c t IH]; [done|]. rewrite trimRightByte_cons.
  destruct (isHyphen c && _); simpl; lia.
Qed.

Lemma trimRightByte_starts (s : string) :
  startsWithHyphen s = false -> startsWithHyphen (trimRightByte s) = false.
Proof.
  destruct s as [|c t]; [done|]. rewrite trimRightByte_cons. cbn [startsWithHyphen].
  intros Hc. rewrite Hc. cbn [andb startsWithHyphen]. exact Hc.
Qed.

Lemma hasDoubleHyphen_cons (c : Ascii.ascii) (t : string) :
  hasDoubleHyphen (String c t) = (isHyphen c && startsWithHyphen t) || hasDoubleHyphen t.
Proof. reflexivity. Qed.

Lemma trimRightByte_double (s : string) :
  hasDoubleHyphen s = false -> hasDoubleHyphen (trimRightByte s) = false.
Proof.
  induction s as [|c t IH]; [done|]. rewrite trimRightByte_cons, hasDoubleHyphen_cons.
  intros [Hct Ht]%orb_false_iff. specialize (IH Ht).
  destruct (isHyphen c) eqn:Hc; cbn [andb] in *.
  - pose proof (trimRightByte_starts t Hct) as Hst.
    destruct (trimRightByte t) as [|c' t']; [done|].
    by rewrite hasDoubleHyphen_cons, Hc, Hst, IH.
  - by rewrite hasDoubleHyphen_cons, Hc, IH.
Qed.

Lemma sanitizeFilename_isClean (name : string) : isClean (sanitizeFilename name) = true.
Proof.
  unfold sanitizeFilename, isClean, Trim, collapseHyphens.
  pose proof (replaceUnsafe_allSafe name) as Hsafe.
  pose proof (collapseFrom_allSafe _ false Hsafe) as Hsafe'.
  destruct (collapseFrom_shape (replaceUnsafe name) false) as [Hd _].
  set (collapsed := collapseFrom false (replaceUnsafe name)) in *.
  rewrite (trimLeftByte_allSafe _ (trimRightByte_allSafe _ Hsafe')).
  rewrite (trimLeftByte_double _ (trimRightByte_double _ Hd)).
  rewrite trimLeftByte_starts.
  by rewrite (trimLeftByte_ends _ (trimRightByte_ends collapsed)).
Qed.

Lemma isClean_unchanged (name : string) : isClean name = true -> sanitizeFilename name = name.
Proof.
  unfold isClean. intros H.
  apply andb_true_iff in H as [H He]. apply andb_true_iff in H as [H Hs].
  apply andb_true_iff in H as [Hsafe Hd].
  apply negb_true_iff in He, Hs, Hd.
  unfold sanitizeFilename, Trim, collapseHyphens.
  rewrite (replaceUnsafe_id _ Hsafe), (collapseFrom_id _ false Hd) by done.
  by rewrite (trimRightByte_id _ He), (trimLeftByte_id _ Hs).
Qed.

Lemma allSafe_Forall (s : string) :
  allSafe s = true -> Forall (λ c, isSafe c = true) (String.list_ascii_of_string s).
Proof.
  induction s as [|c t IH]; simpl; [constructor|].
  intros [Hc Ht]%andb_true_iff. constructor; [done|by apply IH].
Qed.

Lemma hasDoubleHyphen_infix (s : string) :
  hasDoubleHyphen s = false -> forall a b, s <> a +:+ "--" +:+ b.
Proof.
  intros Hd a. revert s Hd. induction a as [|c a IH]; intros s Hd b ->.
  - simpl in Hd. discriminate Hd.
  - change (hasDoubleHyphen (String c (a +:+ "--" +:+ b)) = false) in Hd.
    rewrite hasDoubleHyphen_cons in Hd.
    apply orb_false_iff in Hd as [_ Hd]. by apply (IH _ Hd b).
Qed.

Lemma endsWithHyphen_suffix (s : string) :
  endsWithHyphen s = false -> forall t, s <> t +:+ "-".
Proof.
  intros He t. revert s He. induction t as [|c t IH]; intros s He ->.
  - simpl in He. discriminate He.
  - change (endsWithHyphen (String c (t +:+ "-")) = false) in He.
    cbn [endsWithHyphen] in He.
    destruct (t +:+ "-") as [|c' t'] eqn:Ht.
    + destruct t; discriminate Ht.
    + by apply (IH (String c' t')).
Qed.

(** X1. The result of [sanitizeFilename] holds nothing but letters, digits,
    hyphens, underscores and dots, whatever bytes the name holds. *)
Theorem sanitizeFilename_charset (name : string) :
  Forall (λ c, isSafe c = true) (String.list_ascii_of_string (sanitizeFilename name)).
Proof.
  apply allSafe_Forall. pose proof (sanitizeFilename_isClean name) as H.
  unfold isClean in H. repeat (apply andb_true_iff in H as [H _]). exact H.
Qed.

(** X2. The result has no two hyphens in a row, does not begin with a
    hyphen and does not end with one. *)
Theorem sanitizeFilename_hyphens (name : string) :
  (forall a b, sanitizeFilename name <> a +:+ "--" +:+ b)
  /\ (forall t, sanitizeFilename name <> "-" +:+ t)
  /\ (forall t, sanitizeFilename name <> t +:+ "-").
Proof.
  pose proof (sanitizeFilename_isClean name) as H. unfold isClean in H.
  apply andb_true_iff in H as [H He]. apply andb_true_iff in H as [H Hs].
  apply andb_true_iff in H as [_ Hd]. apply negb_true_iff in He, Hs, Hd.
  split; [by apply hasDoubleHyphen_infix|]. split; [|by apply endsWithHyphen_suffix].
  intros t Heq. rewrite Heq in Hs. discriminate Hs.
Qed.

(** X3. Sanitizing twice is sanitizing once. *)
Theorem sanitizeFilename_idempotent (name : string) :
  sanitizeFilename (sanitizeFilename name) = sanitizeFilename name.
Proof. apply isClean_unchanged, sanitizeFilename_isClean. Qed.

(** X4. The names [sanitizeFilename] returns unchanged are exactly the clean
    ones: safe characters only, no two hyphens in a row, no hyphen at either
    end. *)
Theorem sanitizeFilename_fixed_points (name : string) :
  sanitizeFilename name = name <-> isClean name = true.
Proof.
  split; [|apply isClean_unchanged].
  intros <-. apply sanitizeFilename_isClean.
Qed.

Lemma sanitizeFilename_wordChars (name : string) :
  wordChars (sanitizeFilename name) = wordChars name.
Proof.
  unfold sanitizeFilename, Trim, collapseHyphens.
  by rewrite trimLeftByte_wordChars, trimRightByte_wordChars, collapseFrom_wordChars,
    replaceUnsafe_wordChars.
Qed.

(** X5. The letters, digits, underscores and dots of the name are all kept,
    in their order; only other bytes and hyphens are replaced or removed. *)
Theorem sanitizeFilename_keeps_wordChars (name : string) :
  wordChars (sanitizeFilename name) = wordChars name.
Proof. apply sanitizeFilename_wordChars. Qed.

(** X6. The result is empty exactly when the name holds no letter, digit,
    underscore or dot. *)
Theorem sanitizeFilename_empty_iff (name : string) :
  sanitizeFilename name = EmptyString <-> wordChars name = EmptyString.
Proof.
  rewrite <- (sanitizeFilename_wordChars name).
  pose proof (sanitizeFilename_isClean name) as H.
  destruct (sanitizeFilename name) as [|c t]; [done|].
  split; [done|]. intros Hw. exfalso.
  unfold isClean in H. apply andb_true_iff in H as [H _].
  apply andb_true_iff in H as [H Hs]. apply andb_true_iff in H as [Hsafe _].
  cbn [allSafe startsWithHyphen wordChars] in *.
  apply andb_true_iff in Hsafe as [Hc _]. apply negb_true_iff in Hs.
  unfold isSafe in Hc. rewrite Hs, orb_false_r in Hc. by rewrite Hc in Hw.
Qed.

(** X7. The result is never longer than the name. *)
Theorem sanitizeFilename_length (name : string) :
  (String.length (sanitizeFilename name) <= String.length name)%nat.
Proof.
  unfold sanitizeFilename, Trim, collapseHyphens.
  pose proof (replaceUnsafe_length name).
  pose proof (collapseFrom_length (replaceUnsafe name) false).
  pose proof (trimRightByte_length (collapseFrom false (replaceUnsafe name))).
  pose proof (trimLeftByte_length (trimRightByte (collapseFrom false (replaceUnsafe name)))).
  lia.
Qed.

(** ** The ownership resolver: which deployment is found *)

Lemma deploymentOwner_some (rsOwners : list OwnerReference) (d : string) :
  deploymentOwner rsOwners = Some d ->
  exists before rsOwner after,
    rsOwners = before ++ rsOwner :: after
    /\ Forall (λ r, or_Kind r <> "Deployment") before
    /\ or_Kind rsOwner = "Deployment" /\ or_Name rsOwner = d.
Proof.
  induction rsOwners as [|r rest IH]; simpl; [done|].
  case_decide as Hkind.
  - intros [= <-]. exists [], r, rest. by repeat split.
  - intros (before & rsOwner & after & -> & Hbefore & Hk & Hn)%IH.
    exists (r :: before), rsOwner, after. repeat split; try done. by constructor.
Qed.

Lemma deploymentOwner_first (before after : list OwnerReference) (rsOwner : OwnerReference) :
  Forall (λ r, or_Kind r <> "Deployment") before ->
  or_Kind rsOwner = "Deployment" ->
  deploymentOwner (before ++ rsOwner :: after) = Some (or_Name rsOwner).
Proof.
  induction 1 as [|r before Hr _ IH]; intros Hkind; simpl.
  - by rewrite decide_True.
  - rewrite decide_False by done. by apply IH.
Qed.

(** X8. Owner references of any kind other than "ReplicaSet" play no part:
    the resolver gives the same answer on the "ReplicaSet" references alone. *)
Theorem scanOwners_other_kinds (cs : Clientset) (namespace : string)
    (owners : list OwnerReference) :
  scanOwners cs namespace owners =
  scanOwners cs namespace (filter (λ owner, or_Kind owner = "ReplicaSet") owners).
Proof.
  induction owners as [|owner rest IH]; [done|].
  rewrite filter_cons. simpl. case_decide as Hkind; [|exact IH].
  simpl. rewrite decide_True by done.
  destruct (ReplicaSetsGet cs namespace (or_Name owner)) as [rsOwners|e]; [|exact IH].
  destruct (deploymentOwner rsOwners); [done|exact IH].
Qed.

(** X9. A name returned by the resolver is never made up: when it is not
    empty, the pod has an owner reference of kind "ReplicaSet" whose replica
    set was fetched, in the pod's namespace, and has an owner of kind
    "Deployment" with that name. *)
Theorem getDeploymentForPod_sound (cs : Clientset) (pod : Pod) :
  (getDeploymentForPod cs pod).1 <> EmptyString ->
  exists owner rsOwners rsOwner,
    owner ∈ p_OwnerReferences pod /\ or_Kind owner = "ReplicaSet"
    /\ ReplicaSetsGet cs (p_Namespace pod) (or_Name owner) = Ok rsOwners
    /\ rsOwner ∈ rsOwners /\ or_Kind rsOwner = "Deployment"
    /\ or_Name rsOwner = (getDeploymentForPod cs pod).1.
Proof.
  unfold getDeploymentForPod. cbn [fst].
  induction (p_OwnerReferences pod) as [|owner rest IH]; simpl; [done|].
  assert (scanOwners cs (p_Namespace pod) rest <> EmptyString ->
          exists owner0 rsOwners rsOwner,
            owner0 ∈ owner :: rest /\ or_Kind owner0 = "ReplicaSet"
            /\ ReplicaSetsGet cs (p_Namespace pod) (or_Name owner0) = Ok rsOwners
            /\ rsOwner ∈ rsOwners /\ or_Kind rsOwner = "Deployment"
            /\ or_Name rsOwner = scanOwners cs (p_Namespace pod) rest) as Hrest.
  { intros (o & rs & r & Ho & H)%IH. exists o, rs, r. split; [by apply elem_of_cons; right|done]. }
  case_decide as Hkind; [|exact Hrest].
  destruct (ReplicaSetsGet cs (p_Namespace pod) (or_Name owner)) as [rsOwners|e] eqn:Hget;
    [|exact Hrest].
  destruct (deploymentOwner rsOwners) as [d|] eqn:Hdep; [|exact Hrest].
  intros _. apply deploymentOwner_some in Hdep as (before & r & after & -> & _ & Hk & Hn).
  exists owner, (before ++ r :: after), r.
  repeat split; try done; [by apply elem_of_cons; left|].
  apply elem_of_app; right. by apply elem_of_cons; left.
Qed.

(** X10. The first match wins: when the references before [owner] lead to
    no deployment, and [owner] is a "ReplicaSet" reference whose replica set
    is fetched and whose first owner of kind "Deployment" is [rsOwner], the
    resolver returns the name of [rsOwner], whatever follows in either list. *)
Theorem scanOwners_first_match (cs : Clientset) (namespace : string)
    (before after : list OwnerReference) (owner : OwnerReference)
    (rsBefore rsAfter : list OwnerReference) (rsOwner : OwnerReference) :
  Forall (λ o,
            or_Kind o = "ReplicaSet" ->
            match ReplicaSetsGet cs namespace (or_Name o) with
            | Err _ => True
            | Ok rsOwners => Forall (λ r, or_Kind r <> "Deployment") rsOwners
            end) before ->
  or_Kind owner = "ReplicaSet" ->
  ReplicaSetsGet cs namespace (or_Name owner) = Ok (rsBefore ++ rsOwner :: rsAfter) ->
  Forall (λ r, or_Kind r <> "Deployment") rsBefore ->
  or_Kind rsOwner = "Deployment" ->
  scanOwners cs namespace (before ++ owner :: after) = or_Name rsOwner.
Proof.
  intros Hbefore Hkind Hget HrsBefore HrsKind.
  induction Hbefore as [|o before Ho _ IH]; simpl.
  - rewrite decide_True by done. rewrite Hget.
    by rewrite (deploymentOwner_first rsBefore rsAfter rsOwner).
  - case_decide as Hk; [|exact IH]. specialize (Ho Hk).
    destruct (ReplicaSetsGet cs namespace (or_Name o)) as [rs|e]; [|exact IH].
    by rewrite (deploymentOwner_none rs Ho).
Qed.

Lemma getDeploymentForPod_sound_witness :
  (getDeploymentForPod webClientset mixedPod).1 <> EmptyString /\
  exists owner rsOwners rsOwner,
    owner ∈ p_OwnerReferences mixedPod /\ or_Kind owner = "ReplicaSet"
    /\ ReplicaSetsGet webClientset (p_Namespace mixedPod) (or_Name owner) = Ok rsOwners
    /\ rsOwner ∈ rsOwners /\ or_Kind rsOwner = "Deployment"
    /\ or_Name rsOwner = (getDeploymentForPod webClientset mixedPod).1.
Proof.
  assert ((getDeploymentForPod webClientset mixedPod).1 <> EmptyString) as Hne
    by (vm_compute; discriminate).
  split; [exact Hne|]. exact (getDeploymentForPod_sound webClientset mixedPod Hne).
Defined.

Lemma scanOwners_first_match_witness :
  or_Kind (mkOwnerReference "ReplicaSet" "web-abc") = "ReplicaSet" /\
  scanOwners webClientset "ns" (p_OwnerReferences mixedPod) = "web".
Proof.
  split; [reflexivity|].
  apply (scanOwners_first_match webClientset "ns"
           [mkOwnerReference "Job" "migrate"; mkOwnerReference "ReplicaSet" "gone"] []
           (mkOwnerReference "ReplicaSet" "web-abc")
           [] [] (mkOwnerReference "Deployment" "web")).
  - repeat constructor; simpl; intros; done.
  - reflexivity.
  - reflexivity.
  - constructor.
  - reflexivity.
Defined.

(** ** The sampler: calls, waits and what the snapshot holds *)

Lemma samplingLoop_accounts (mc : MetricsClient) (n : nat) :
  forall (i iterations : Z) (metrics : MetricsData) (w : World),
    let w' := (samplingLoop mc n i iterations metrics w).2 in
    nodeCalls w' = (nodeCalls w + length (podSamplesOf mc n (podCalls w)))%nat
    /\ sleptTotal (trace w') =
         sleptTotal (trace w)
         + interval * Z.of_nat (length (nodeSamplesOf mc n (podCalls w) (nodeCalls w))).
Proof.
  induction n as [|n IH]; intros i iterations metrics w; cbv zeta.
  { simpl. split; lia. }
  cbn [samplingLoop podSamplesOf nodeSamplesOf].
  unfold mbind at 1 2, IO_bind at 1 2. rewrite iteration_cases. cbv zeta.
  destruct (PodMetricsesList mc (podCalls w)) as [podItems|e].
  - destruct (NodeMetricsesList mc (nodeCalls w)) as [nodeItems|e];
      (match goal with |- context [samplingLoop mc n ?i' iterations ?m ?w'] =>
         destruct (IH i' iterations m w') as [-> ->] end);
      cbn [nodeCalls podCalls trace sleptTotal length]; split; lia.
  - match goal with |- context [samplingLoop mc n ?i' iterations ?m ?w'] =>
      destruct (IH i' iterations m w') as [-> ->] end.
    cbn [nodeCalls podCalls trace sleptTotal]. split; lia.
Qed.

Lemma nodeSamplesOf_length (mc : MetricsClient) (n : nat) :
  forall kp kn, (length (nodeSamplesOf mc n kp kn) <= n)%nat.
Proof.
  induction n as [|n IH]; intros kp kn; simpl; [lia|].
  destruct (PodMetricsesList mc kp).
  - destruct (NodeMetricsesList mc kn); simpl; specialize (IH (S kp) (S kn)); lia.
  - specialize (IH (S kp) kn). lia.
Qed.

Lemma iterations_fit (period : Z) :
  interval * Z.of_nat (Z.to_nat (iterationsOf period)) <= Z.max 0 period.
Proof.
  assert (0 < interval) as Hpos by (unfold interval; lia).
  destruct (Z.le_gt_cases 0 period) as [Hnn|Hneg].
  - unfold iterationsOf. rewrite Z2Nat.id by (apply Z.quot_pos; lia).
    pose proof (Z.mul_quot_le period interval Hnn ltac:(lia)). lia.
  - rewrite (iterationsOf_short period) by lia. lia.
Qed.

(** The world after the probe and the banner, in which the loop starts. *)
Lemma collectMetrics_after_probe (mc : MetricsClient) (period : Z) (w : World)
    (probed : list NodeMetricsItem) :
  NodeMetricsesList mc (nodeCalls w) = Ok probed ->
  let w1 := mkWorld (S (nodeCalls w)) (podCalls w)
              (PrintedBanner period :: CalledNodeMetrics :: trace w) in
  let r := samplingLoop mc (Z.to_nat (iterationsOf period)) 0 (iterationsOf period)
             newMetricsData w1 in
  collectMetrics mc period w = (Ok r.1, r.2).
Proof.
  intros Hprobe w1 r.
  unfold collectMetrics, checkMetricsServer, mbind, IO_bind, listNodeMetrics.
  rewrite Hprobe. simpl. fold w1. fold r. by destruct r.
Qed.

(** X13. After a successful probe the program waits 30 s once for every
    iteration whose two fetches succeed, the last iteration included, and
    at no other time; in all it never waits longer than the window. *)
Theorem collectMetrics_waits (mc : MetricsClient) (period : Z) (w : World)
    (probed : list NodeMetricsItem) :
  NodeMetricsesList mc (nodeCalls w) = Ok probed ->
  let n := Z.to_nat (iterationsOf period) in
  let w' := (collectMetrics mc period w).2 in
  sleptTotal (trace w') =
    sleptTotal (trace w)
    + interval * Z.of_nat (length (nodeSamplesOf mc n (podCalls w) (S (nodeCalls w))))
  /\ sleptTotal (trace w') - sleptTotal (trace w) <= Z.max 0 period.
Proof.
  intros Hprobe n w'. subst w'.
  rewrite (collectMetrics_after_probe mc period w probed Hprobe). cbn [snd].
  destruct (samplingLoop_accounts mc n 0 (iterationsOf period) newMetricsData
              (mkWorld (S (nodeCalls w)) (podCalls w)
                 (PrintedBanner period :: CalledNodeMetrics :: trace w))) as [_ Hslept].
  cbv zeta in Hslept. cbn [nodeCalls podCalls trace sleptTotal] in Hslept.
  fold n. rewrite Hslept. split; [reflexivity|].
  pose proof (nodeSamplesOf_length mc n (podCalls w) (S (nodeCalls w))).
  pose proof (iterations_fit period). fold n in H0.
  assert (0 < interval) by (unfold interval; lia). nia.
Qed.

Lemma collectMetrics_waits_witness :
  NodeMetricsesList idleClient (nodeCalls initialWorld) = Ok [] /\
  sleptTotal (trace (collectMetrics idleClient (95 * second) initialWorld).2) = 90 * second.
Proof.
  split; [reflexivity|].
  destruct (collectMetrics_waits idleClient (95 * second) initialWorld [] eq_refl) as [H _].
  etransitivity; [exact H|]. vm_compute. reflexivity.
Defined.

(** X14. After a successful probe the program makes one pod fetch per
    iteration, [floor(period / 30 s)] of them whatever fails, and one node
    fetch after each pod fetch that succeeded, none after one that failed. *)
Theorem collectMetrics_calls (mc : MetricsClient) (period : Z) (w : World)
    (probed : list NodeMetricsItem) :
  NodeMetricsesList mc (nodeCalls w) = Ok probed ->
  let n := Z.to_nat (iterationsOf period) in
  let w' := (collectMetrics mc period w).2 in
  podCalls w' = (podCalls w + n)%nat
  /\ nodeCalls w' = (S (nodeCalls w) + length (podSamplesOf mc n (podCalls w)))%nat.
Proof.
  intros Hprobe n w'. subst w'.
  rewrite (collectMetrics_after_probe mc period w probed Hprobe). cbn [snd].
  set (w1 := mkWorld (S (nodeCalls w)) (podCalls w) _).
  destruct (samplingLoop_accounts mc n 0 (iterationsOf period) newMetricsData w1)
    as [Hnodes _].
  pose proof (samplingLoop_podCalls mc n 0 (iterationsOf period) newMetricsData w1) as Hpods.
  fold n. cbv zeta in Hnodes. rewrite Hnodes, Hpods. subst w1. simpl. split; lia.
Qed.

Lemma collectMetrics_calls_witness :
  NodeMetricsesList podsDownClient (nodeCalls initialWorld) =
    Ok [mkNodeMetricsItem "worker-1" 1500 (4096 * Mi)] /\
  podCalls (collectMetrics podsDownClient (95 * second) initialWorld).2 = 3%nat /\
  nodeCalls (collectMetrics podsDownClient (95 * second) initialWorld).2 = 1%nat.
Proof.
  split; [reflexivity|].
  destruct (collectMetrics_calls podsDownClient (95 * second) initialWorld _ eq_refl)
    as [Hp Hn].
  split; [etransitivity; [exact Hp|reflexivity] | etransitivity; [exact Hn|reflexivity]].
Defined.

Lemma collectMetrics_snapshot_witness :
  NodeMetricsesList nodesDownClient (nodeCalls initialWorld) = Ok [] /\
  exists metrics w',
    collectMetrics nodesDownClient (60 * second) initialWorld = (Ok metrics, w')
    /\ md_PodMetrics metrics =
         md_PodMetrics (foldPodSamples newMetricsData (podSamplesOf nodesDownClient 2 0))
    /\ podCalls w' = 2%nat.
Proof.
  split; [reflexivity|].
  destruct (collectMetrics_snapshot nodesDownClient (60 * second) initialWorld [] eq_refl)
    as (metrics & w' & Hrun & Hpods & _ & Hcalls).
  exists metrics, w'. split; [exact Hrun|]. split; [exact Hpods|exact Hcalls].
Defined.

Lemma foldl_observePod_from_empty (items : list PodMetricsItem) (p : string) (pm : PodMetrics) :
  foldl observePod ∅ items !! p = Some pm ->
  pm_MaxCPU pm = 0 /\ pm_MaxMemory pm = 0
  /\ forall c cm, pm_Containers pm !! c = Some cm -> 0 <= cm_MaxCPU cm /\ 0 <= cm_MaxMemory cm.
Proof.
  rewrite foldl_observePod_lookup, lookup_empty.
  destruct (itemsOf p items) as [|first rest]; [done|]. cbv zeta. cbn [default].
  intros [= <-]. cbn [pm_MaxCPU pm_MaxMemory pm_Containers]. repeat split; try done.
  - revert H. rewrite foldl_observeContainer_lookup, lookup_empty.
    destruct (usagesOf c _) as [|u us]; [done|]. intros [= <-].
    exact (foldl_max_le (cu_Cpu <$> u :: us) 0).
  - revert H. rewrite foldl_observeContainer_lookup, lookup_empty.
    destruct (usagesOf c _) as [|u us]; [done|]. intros [= <-].
    exact (foldl_max_le (cu_Memory <$> u :: us) 0).
Qed.

Lemma foldl_observeNode_from_empty (items : list NodeMetricsItem) (k : string)
    (nm : NodeMetrics) :
  foldl observeNode ∅ items !! k = Some nm -> 0 <= nm_MaxCPU nm /\ 0 <= nm_MaxMemory nm.
Proof.
  rewrite foldl_observeNode_lookup, lookup_empty.
  destruct (nodeObservations k items) as [|u us]; [done|]. intros [= <-].
  split; [exact (foldl_max_le (ni_Cpu <$> u :: us) 0)
         |exact (foldl_max_le (ni_Memory <$> u :: us) 0)].
Qed.

(** X12. In every snapshot [collectMetrics] returns, the pod-level fields
    [MaxCPU] and [MaxMemory] of an entry are zero (the loop never writes
    them), and the maxima of the containers and of the nodes are not
    negative, whatever figures the Metrics Server reported. *)
Theorem collectMetrics_snapshot_invariants (mc : MetricsClient) (period : Z) (w : World) :
  match (collectMetrics mc period w).1 with
  | Ok metrics =>
      (forall p pm,
          md_PodMetrics metrics !! p = Some pm ->
          pm_MaxCPU pm = 0 /\ pm_MaxMemory pm = 0
          /\ forall c cm, pm_Containers pm !! c = Some cm ->
                          0 <= cm_MaxCPU cm /\ 0 <= cm_MaxMemory cm)
      /\ (forall k nm,
            md_NodeMetrics metrics !! k = Some nm ->
            0 <= nm_MaxCPU nm /\ 0 <= nm_MaxMemory nm)
  | Err _ => True
  end.
Proof.
  destruct (NodeMetricsesList mc (nodeCalls w)) as [probed|e] eqn:Hprobe.
  - rewrite (collectMetrics_after_probe mc period w probed Hprobe). cbn [fst].
    set (w1 := mkWorld (S (nodeCalls w)) (podCalls w) _).
    destruct (samplingLoop_snapshot mc (Z.to_nat (iterationsOf period)) 0
                (iterationsOf period) newMetricsData w1) as [Hpods Hnodes].
    rewrite Hpods, Hnodes.
    rewrite (proj1 (foldPodSamples_pods _ _)), (proj1 (foldNodeSamples_nodes _ _)).
    split.
    + intros p pm. apply foldl_observePod_from_empty.
    + intros k nm. apply foldl_observeNode_from_empty.
  - unfold collectMetrics, checkMetricsServer, mbind, IO_bind, listNodeMetrics.
    by rewrite Hprobe.
Qed.

Lemma samplesOf_all_fail (mc : MetricsClient) (n : nat) :
  (forall k, exists e, PodMetricsesList mc k = Err e) ->
  forall kp kn, podSamplesOf mc n kp = [] /\ nodeSamplesOf mc n kp kn = [].
Proof.
  intros Hfail. induction n as [|n IH]; intros kp kn; simpl; [done|].
  destruct (Hfail kp) as [e ->]. apply IH.
Qed.

(** X15. When the probe succeeds and every pod fetch fails, [collectMetrics]
    still returns a snapshot, the empty one, and no error; it has made no
    further node fetch and has not waited once: the whole window is skipped. *)
Theorem collectMetrics_all_pod_fetches_fail (mc : MetricsClient) (period : Z) (w : World)
    (probed : list NodeMetricsItem) :
  NodeMetricsesList mc (nodeCalls w) = Ok probed ->
  (forall k, exists e, PodMetricsesList mc k = Err e) ->
  exists w',
    collectMetrics mc period w = (Ok newMetricsData, w')
    /\ nodeCalls w' = S (nodeCalls w)
    /\ sleptTotal (trace w') = sleptTotal (trace w).
Proof.
  intros Hprobe Hfail.
  rewrite (collectMetrics_after_probe mc period w probed Hprobe).
  set (n := Z.to_nat (iterationsOf period)).
  set (w1 := mkWorld (S (nodeCalls w)) (podCalls w) _).
  destruct (samplingLoop_snapshot mc n 0 (iterationsOf period) newMetricsData w1)
    as [Hpods Hnodes].
  destruct (samplingLoop_accounts mc n 0 (iterationsOf period) newMetricsData w1)
    as [Hcalls Hslept].
  cbv zeta in Hcalls, Hslept.
  destruct (samplesOf_all_fail mc n Hfail (podCalls w1) (nodeCalls w1)) as [Hp Hn].
  rewrite Hp in Hpods, Hcalls. rewrite Hn in Hnodes, Hslept.
  destruct (samplingLoop mc n 0 (iterationsOf period) newMetricsData w1) as [metrics w'].
  cbn [fst snd] in *. exists w'. destruct metrics as [pods nodes]. simpl in *.
  subst pods nodes. repeat split; [subst w1; simpl in *; lia | subst w1; simpl in *; lia].
Qed.

Lemma collectMetrics_all_pod_fetches_fail_witness :
  NodeMetricsesList podsDownClient (nodeCalls initialWorld) =
    Ok [mkNodeMetricsItem "worker-1" 1500 (4096 * Mi)] /\
  (forall k, exists e, PodMetricsesList podsDownClient k = Err e) /\
  exists w',
    collectMetrics podsDownClient (300 * second) initialWorld = (Ok newMetricsData, w')
    /\ nodeCalls w' = 1%nat /\ sleptTotal (trace w') = 0.
Proof.
  assert (forall k, exists e, PodMetricsesList podsDownClient k = Err e) as Hfail
    by (intros k; exists "timeout"; reflexivity).
  split; [reflexivity|]. split; [exact Hfail|].
  exact (collectMetrics_all_pod_fetches_fail podsDownClient (300 * second) initialWorld
           _ eq_refl Hfail).
Defined.

(** X16. From the empty snapshot, the maximum kept for a container that was
    observed is the greatest of zero and its observed values: it is never
    below an observed value, never negative, and when it is not zero it is
    one of the observed values. Figures below zero are thus stored as zero. *)
Theorem stored_maximum_clamped (items : list PodMetricsItem) (p c : string) :
  observations p c items <> [] ->
  exists cm,
    containerEntry (foldl observePod ∅ items) p c = Some cm
    /\ cm_MaxCPU cm = foldl Z.max 0 (cu_Cpu <$> observations p c items)
    /\ cm_MaxMemory cm = foldl Z.max 0 (cu_Memory <$> observations p c items)
    /\ 0 <= cm_MaxCPU cm
    /\ (forall o, o ∈ observations p c items -> cu_Cpu o <= cm_MaxCPU cm)
    /\ (cm_MaxCPU cm = 0 \/ cm_MaxCPU cm ∈ cu_Cpu <$> observations p c items).
Proof.
  intros Hobs. rewrite (containerEntry_from_empty items p c Hobs).
  eexists; split; [reflexivity|]. cbn [cm_MaxCPU cm_MaxMemory].
  split; [reflexivity|]. split; [reflexivity|]. split; [apply foldl_max_le|].
  split; [|apply foldl_max_in].
  intros o Ho. apply foldl_max_ge, list_elem_of_fmap. by exists o.
Qed.

Lemma stored_maximum_clamped_witness :
  observations "api-1" "app" negativeSample <> [] /\
  exists cm,
    containerEntry (foldl observePod ∅ negativeSample) "api-1" "app" = Some cm
    /\ cm_MaxCPU cm = 0 /\ cm_MaxMemory cm = 0.
Proof.
  assert (observations "api-1" "app" negativeSample <> []) as Hobs
    by (vm_compute; discriminate).
  split; [exact Hobs|].
  destruct (stored_maximum_clamped negativeSample "api-1" "app" Hobs)
    as (cm & Hcm & Hcpu & Hmem & _).
  exists cm. split; [exact Hcm|]. split; [rewrite Hcpu|rewrite Hmem]; reflexivity.
Defined.

(** X17. Folding further samples never removes a pod entry or a container
    entry, and never changes the namespace an entry was created with. *)
Theorem entries_persist (pods : gmap string PodMetrics) (items : list PodMetricsItem)
    (p : string) (pm : PodMetrics) :
  pods !! p = Some pm ->
  exists pm',
    foldl observePod pods items !! p = Some pm'
    /\ pm_Namespace pm' = pm_Namespace pm
    /\ forall c, is_Some (pm_Containers pm !! c) -> is_Some (pm_Containers pm' !! c).
Proof.
  intros Hpm. rewrite foldl_observePod_lookup, Hpm.
  destruct (itemsOf p items) as [|first rest]; [by exists pm|].
  cbv zeta. cbn [default]. eexists; split; [reflexivity|]. split; [reflexivity|].
  intros c Hc. cbn [pm_Containers]. rewrite foldl_observeContainer_lookup.
  destruct (usagesOf c _); [exact Hc|by eexists].
Qed.

Lemma entries_persist_witness :
  observePod ∅ blueItem !! "api-0" =
    Some (mkPodMetrics 0 0 "blue" {["app" := mkContainerMetrics 100 (20 * Mi)]}) /\
  exists pm',
    foldl observePod (observePod ∅ blueItem) [greenItem] !! "api-0" = Some pm'
    /\ pm_Namespace pm' = "blue".
Proof.
  assert (observePod ∅ blueItem !! "api-0" =
          Some (mkPodMetrics 0 0 "blue" {["app" := mkContainerMetrics 100 (20 * Mi)]}))
    as Hpm by (vm_compute; reflexivity).
  split; [exact Hpm|].
  destruct (entries_persist (observePod ∅ blueItem) [greenItem] "api-0" _ Hpm)
    as (pm' & Hpm' & Hns & _).
  exists pm'. split; [exact Hpm'|exact Hns].
Defined.

(** ** The aggregator: what the result holds *)

(** One pod that resolves to a deployment, when the fold returns: the map
    changes at the pod's key only, and there as follows. *)
Lemma aggregatePod_step (cs : Clientset) (metrics : MetricsData)
    (dms dms' : gmap string DeploymentMetrics) (pod : Pod) :
  let d := scanOwners cs (p_Namespace pod) (p_OwnerReferences pod) in
  let key := deploymentKey (p_Namespace pod) d in
  let dm0 := default (newDeploymentMetrics d (p_Namespace pod)) (dms !! key) in
  d <> EmptyString ->
  aggregatePod cs metrics dms pod = Done dms' ->
  exists dm',
    dms' = <[key := dm']> dms
    /\ dm_Name dm' = dm_Name dm0 /\ dm_Namespace dm' = dm_Namespace dm0
    /\ dm_Pods dm' = dm_Pods dm0 ++ [p_Name pod]
    /\ dm_TotalPods dm' = dm_TotalPods dm0 + 1
    /\ dm_PodsWithoutLimits dm' =
         dm_PodsWithoutLimits dm0 + (if hasLimits (p_Containers pod) then 0 else 1)
    /\ dm_Recommendations dm' = dm_Recommendations dm0
    /\ dm_MaxCPU dm' = foldl Z.max (dm_MaxCPU dm0) (cm_MaxCPU <$> podEntries metrics pod)
    /\ dm_MaxMemory dm' =
         foldl Z.max (dm_MaxMemory dm0) (cm_MaxMemory <$> podEntries metrics pod)
    /\ (md_PodMetrics metrics !! p_Name pod = None ->
         dm_AvgCPU dm' = dm_AvgCPU dm0 /\ dm_AvgMemory dm' = dm_AvgMemory dm0)
    /\ (forall podMetrics,
           md_PodMetrics metrics !! p_Name pod = Some podMetrics ->
           (dm_AvgCPU dm', dm_AvgMemory dm') = entryAverage podMetrics).
Proof.
  intros d key dm0 Hd. unfold aggregatePod, getDeploymentForPod, podEntries.
  fold d. rewrite decide_False by done. fold key. fold dm0.
  assert (dm_Name (countPod dm0 pod) = dm_Name dm0
          /\ dm_Namespace (countPod dm0 pod) = dm_Namespace dm0
          /\ dm_Pods (countPod dm0 pod) = dm_Pods dm0 ++ [p_Name pod]
          /\ dm_TotalPods (countPod dm0 pod) = dm_TotalPods dm0 + 1
          /\ dm_PodsWithoutLimits (countPod dm0 pod) =
               dm_PodsWithoutLimits dm0 + (if hasLimits (p_Containers pod) then 0 else 1)
          /\ dm_Recommendations (countPod dm0 pod) = dm_Recommendations dm0
          /\ dm_MaxCPU (countPod dm0 pod) = dm_MaxCPU dm0
          /\ dm_MaxMemory (countPod dm0 pod) = dm_MaxMemory dm0
          /\ dm_AvgCPU (countPod dm0 pod) = dm_AvgCPU dm0
          /\ dm_AvgMemory (countPod dm0 pod) = dm_AvgMemory dm0)
    as (Hn & Hns & Hp & Ht & Hw & Hr & Hc & Hm & Hac & Ham).
  { unfold countPod. destruct (hasLimits (p_Containers pod)); simpl; repeat split; lia. }
  destruct (md_PodMetrics metrics !! p_Name pod) as [podMetrics|].
  - destruct (foldPodUsage (countPod dm0 pod) podMetrics) as [dm'|] eqn:Hfold; [|done].
    intros [= <-]. exists dm'. split; [done|].
    destruct (foldPodUsage_fields _ _ _ Hfold) as (-> & -> & -> & -> & -> & ->).
    destruct (foldPodUsage_average _ _ _ Hfold) as [Havc Havm].
    unfold foldPodUsage in Hfold.
    destruct (Z.of_nat (size (pm_Containers podMetrics)) =? 0); [done|].
    injection Hfold as <-.
    destruct (foldl_addContainerMetrics_max (map_to_list (pm_Containers podMetrics)).*2
                (mkUsageLoop (countPod dm0 pod) 0 0)) as [Hcpu Hmem].
    cbn [setAvg dm_MaxCPU dm_MaxMemory dm_AvgCPU dm_AvgMemory ul_dm] in *.
    rewrite Hcpu, Hmem, Hc, Hm. repeat split; try done.
    intros pm' [= <-]. unfold entryAverage. cbv zeta in Havc, Havm.
    by rewrite <- Havc, <- Havm.
  - intros [= <-]. exists (countPod dm0 pod). simpl. repeat split; try done.
Qed.

Lemma aggregatePod_unresolved (cs : Clientset) (metrics : MetricsData)
    (dms : gmap string DeploymentMetrics) (pod : Pod) :
  scanOwners cs (p_Namespace pod) (p_OwnerReferences pod) = EmptyString ->
  aggregatePod cs metrics dms pod = Done dms.
Proof.
  intros Hd. unfold aggregatePod, getDeploymentForPod. rewrite Hd. by rewrite decide_True.
Qed.

(** An invariant of the aggregates that every pod preserves holds of the
    result of the loop. *)
Lemma aggregateLoop_invariant (cs : Clientset) (metrics : MetricsData)
    (I : gmap string DeploymentMetrics -> Prop) :
  (forall dms pod dms', I dms -> aggregatePod cs metrics dms pod = Done dms' -> I dms') ->
  forall pods dms dms',
    I dms -> aggregateLoop cs metrics dms pods = Done dms' -> I dms'.
Proof.
  intros Hstep pods. induction pods as [|pod rest IH]; intros dms dms' HI; simpl.
  - by intros [= <-].
  - destruct (aggregatePod cs metrics dms pod) as [dms1|] eqn:Hpod; [|done].
    apply IH. by eapply Hstep.
Qed.

Lemma aggregate_summaries_order_witness :
  Permutation webPods (reverse webPods) /\
  summaries (aggregateDeploymentMetrics webClientset webPods webSnapshot) =
  summaries (aggregateDeploymentMetrics webClientset (reverse webPods) webSnapshot).
Proof.
  assert (Permutation webPods (reverse webPods)) as Hperm
    by (symmetry; apply reverse_Permutation).
  split; [exact Hperm|].
  exact (aggregate_summaries_order webClientset webSnapshot webPods (reverse webPods) Hperm).
Defined.

Lemma aggregatePod_panics_iff (cs : Clientset) (metrics : MetricsData)
    (dms : gmap string DeploymentMetrics) (pod : Pod) :
  aggregatePod cs metrics dms pod = Panic <-> stopsAggregation cs metrics pod.
Proof.
  unfold aggregatePod, getDeploymentForPod, stopsAggregation.
  destruct (decide (scanOwners cs (p_Namespace pod) (p_OwnerReferences pod) = EmptyString))
    as [Hd|Hd].
  { split; [done|]. by intros [? _]. }
  destruct (md_PodMetrics metrics !! p_Name pod) as [podMetrics|].
  - match goal with |- context [foldPodUsage ?x podMetrics] =>
      pose proof (foldPodUsage_panics_iff x podMetrics) as Hiff;
      destruct (foldPodUsage x podMetrics) as [dm'|]
    end.
    + split; [done|]. intros (_ & pm & [= <-] & Hempty).
      by apply Hiff in Hempty.
    + split; [|done]. intros _. split; [done|]. exists podMetrics.
      split; [done|]. by apply Hiff.
  - split; [done|]. by intros (_ & pm & ? & _).
Qed.

Lemma aggregateLoop_panics_iff (cs : Clientset) (metrics : MetricsData) (pods : list Pod) :
  forall dms,
    aggregateLoop cs metrics dms pods = Panic <-> Exists (stopsAggregation cs metrics) pods.
Proof.
  induction pods as [|pod rest IH]; intros dms; simpl.
  - split; [done|]. intros H. inversion H.
  - rewrite Exists_cons, <- (aggregatePod_panics_iff cs metrics dms pod).
    destruct (aggregatePod cs metrics dms pod) as [dms1|].
    + rewrite IH. split; [by right|]. by intros [?|?].
    + split; [by left|done].
Qed.

(** X19. The aggregation stops on the division by zero exactly when some
    pod of the list resolves to a deployment and has a snapshot entry without
    containers; where in the list it stands, and what else the list holds,
    makes no difference. In every other case a map is returned. *)
Theorem aggregate_panics_iff (cs : Clientset) (pods : list Pod) (metrics : MetricsData) :
  aggregateDeploymentMetrics cs pods metrics = Panic
  <-> Exists (stopsAggregation cs metrics) pods.
Proof. apply aggregateLoop_panics_iff. Qed.

(** X20. Every aggregate of a returned map is filed under the key made of
    its own namespace and name, has a name, counts as many pods as its member
    list holds, at least one, has between zero and that many pods without
    limits, carries no recommendation, and has maxima that are not negative. *)
Theorem aggregate_result_wellformed (cs : Clientset) (pods : list Pod)
    (metrics : MetricsData) (dms : gmap string DeploymentMetrics) :
  aggregateDeploymentMetrics cs pods metrics = Done dms ->
  forall key dm,
    dms !! key = Some dm ->
    deploymentKey (dm_Namespace dm) (dm_Name dm) = key
    /\ dm_Name dm <> EmptyString
    /\ dm_TotalPods dm = Z.of_nat (length (dm_Pods dm))
    /\ 1 <= dm_TotalPods dm
    /\ 0 <= dm_PodsWithoutLimits dm <= dm_TotalPods dm
    /\ dm_Recommendations dm = []
    /\ 0 <= dm_MaxCPU dm /\ 0 <= dm_MaxMemory dm.
Proof.
  unfold aggregateDeploymentMetrics.
  set (ok := λ (key : string) (dm : DeploymentMetrics),
         deploymentKey (dm_Namespace dm) (dm_Name dm) = key
         /\ dm_Name dm <> EmptyString
         /\ dm_TotalPods dm = Z.of_nat (length (dm_Pods dm))
         /\ 1 <= dm_TotalPods dm
         /\ 0 <= dm_PodsWithoutLimits dm <= dm_TotalPods dm
         /\ dm_Recommendations dm = []
         /\ 0 <= dm_MaxCPU dm /\ 0 <= dm_MaxMemory dm).
  apply (aggregateLoop_invariant cs metrics
           (λ dms, forall key dm, dms !! key = Some dm -> ok key dm)); [|done].
  clear dms. intros dms pod dms' HI Hpod.
  destruct (decide (scanOwners cs (p_Namespace pod) (p_OwnerReferences pod) = EmptyString))
    as [Hd|Hd].
  { rewrite (aggregatePod_unresolved cs metrics dms pod Hd) in Hpod. by injection Hpod as <-. }
  destruct (aggregatePod_step cs metrics dms dms' pod Hd Hpod)
    as (dm' & -> & Hn & Hns & Hp & Ht & Hw & Hr & Hc & Hm & _).
  intros key dm. rewrite lookup_insert. case_decide as Hkey; [|by apply HI].
  intros [= <-]. subst key.
  set (key := deploymentKey _ _) in *.
  assert (dms !! key = None \/ exists dm0, dms !! key = Some dm0 /\ ok key dm0) as Hold.
  { destruct (dms !! key) as [dm0|] eqn:Hdm0; [right; exists dm0; split; [done|by apply HI]|by left]. }
  pose proof (foldl_max_le (cm_MaxCPU <$> podEntries metrics pod)) as Hcle.
  pose proof (foldl_max_le (cm_MaxMemory <$> podEntries metrics pod)) as Hmle.
  destruct Hold as [Hnone|(dm0 & Hsome & Hk & Hname & Hlen & Hone & Hpwl & Hrec & Hc0 & Hm0)].
  - rewrite Hnone in *. cbn [default newDeploymentMetrics dm_Name dm_Namespace dm_Pods
      dm_TotalPods dm_PodsWithoutLimits dm_Recommendations dm_MaxCPU dm_MaxMemory] in *.
    unfold ok. rewrite Hn, Hns, Hp, Ht, Hw, Hr, Hc, Hm.
    specialize (Hcle 0). specialize (Hmle 0).
    repeat split; try done; try (destruct (hasLimits (p_Containers pod)); simpl; lia).
  - rewrite Hsome in *. cbn [default] in *.
    unfold ok. rewrite Hn, Hns, Hp, Ht, Hw, Hr, Hc, Hm.
    specialize (Hcle (dm_MaxCPU dm0)). specialize (Hmle (dm_MaxMemory dm0)).
    repeat split; try done;
      try (rewrite ?length_app; simpl; destruct (hasLimits (p_Containers pod)); simpl; lia).
Qed.

Lemma aggregate_result_wellformed_witness :
  aggregateDeploymentMetrics webClientset webPods webSnapshot =
    Done {[ "ns/web" :=
              mkDeploymentMetrics "web" "ns" ["web-1"; "web-2"; "web-3"]
                200 (60 * Mi) 150 (40 * Mi) 3 1 [] ]} /\
  deploymentKey "ns" "web" = "ns/web" /\ 3 = Z.of_nat (length ["web-1"; "web-2"; "web-3"]).
Proof.
  assert (aggregateDeploymentMetrics webClientset webPods webSnapshot =
          Done {[ "ns/web" :=
                    mkDeploymentMetrics "web" "ns" ["web-1"; "web-2"; "web-3"]
                      200 (60 * Mi) 150 (40 * Mi) 3 1 [] ]}) as Hrun
    by (vm_compute; reflexivity).
  split; [exact Hrun|].
  destruct (aggregate_result_wellformed webClientset webPods webSnapshot _ Hrun "ns/web" _
              (lookup_singleton_eq _ _)) as (Hkey & _ & Hlen & _).
  split; [exact Hkey|exact Hlen].
Defined.

Lemma aggregateLoop_members (cs : Clientset) (metrics : MetricsData) (key : string)
    (pods : list Pod) :
  forall dms dms',
    aggregateLoop cs metrics dms pods = Done dms' ->
    dm_Pods <$> dms' !! key =
      match filter (resolvesTo cs key) pods with
      | [] => dm_Pods <$> dms !! key
      | members => Some (default [] (dm_Pods <$> dms !! key) ++ (p_Name <$> members))
      end.
Proof.
  induction pods as [|pod rest IH]; intros dms dms'; simpl.
  { by intros [= <-]. }
  destruct (aggregatePod cs metrics dms pod) as [dms1|] eqn:Hpod; [|done].
  intros Hrest. rewrite (IH dms1 dms' Hrest). clear IH Hrest.
  rewrite filter_cons.
  destruct (decide (scanOwners cs (p_Namespace pod) (p_OwnerReferences pod) = EmptyString))
    as [Hd|Hd].
  { rewrite (aggregatePod_unresolved cs metrics dms pod Hd) in Hpod. injection Hpod as <-.
    rewrite decide_False; [done|]. by intros [? _]. }
  destruct (aggregatePod_step cs metrics dms dms1 pod Hd Hpod)
    as (dm' & -> & _ & _ & Hp & _).
  destruct (decide (resolvesTo cs key pod)) as [[_ Hkey]|Hno].
  - rewrite Hkey in *. rewrite lookup_insert_eq. cbn [fmap option_fmap option_map default].
    rewrite Hp.
    assert (dm_Pods (default (newDeploymentMetrics
                                (scanOwners cs (p_Namespace pod) (p_OwnerReferences pod))
                                (p_Namespace pod)) (dms !! key))
            = default [] (dm_Pods <$> dms !! key)) as -> by (by destruct (dms !! key)).
    destruct (filter (resolvesTo cs key) rest) as [|m ms]; simpl.
    + done.
    + by rewrite <- app_assoc.
  - rewrite lookup_insert_ne; [done|]. intros Hkey. apply Hno. by split.
Qed.

(** X21. The member list of the aggregate filed under a key holds the names
    of the pods that resolve to that key, all of them, in the order of the
    pod list; and a key has an aggregate exactly when some pod resolves to it. *)
Theorem aggregate_members (cs : Clientset) (pods : list Pod) (metrics : MetricsData)
    (dms : gmap string DeploymentMetrics) :
  aggregateDeploymentMetrics cs pods metrics = Done dms ->
  forall key,
    dm_Pods <$> dms !! key =
      match filter (resolvesTo cs key) pods with
      | [] => None
      | members => Some (p_Name <$> members)
      end.
Proof.
  intros Hrun key. unfold aggregateDeploymentMetrics in Hrun.
  rewrite (aggregateLoop_members cs metrics key pods ∅ dms Hrun), lookup_empty.
  by destruct (filter (resolvesTo cs key) pods).
Qed.

Lemma aggregate_members_witness :
  aggregateDeploymentMetrics webClientset (barePod :: webPods) webSnapshot =
    Done {[ "ns/web" :=
              mkDeploymentMetrics "web" "ns" ["web-1"; "web-2"; "web-3"]
                200 (60 * Mi) 150 (40 * Mi) 3 1 [] ]} /\
  p_Name <$> filter (resolvesTo webClientset "ns/web") (barePod :: webPods) =
    ["web-1"; "web-2"; "web-3"].
Proof.
  assert (aggregateDeploymentMetrics webClientset (barePod :: webPods) webSnapshot =
          Done {[ "ns/web" :=
                    mkDeploymentMetrics "web" "ns" ["web-1"; "web-2"; "web-3"]
                      200 (60 * Mi) 150 (40 * Mi) 3 1 [] ]}) as Hrun
    by (vm_compute; reflexivity).
  split; [exact Hrun|].
  pose proof (aggregate_members webClientset (barePod :: webPods) webSnapshot _ Hrun
                "ns/web") as H.
  rewrite lookup_singleton_eq in H. cbn [fmap option_fmap option_map dm_Pods] in H.
  destruct (filter (resolvesTo webClientset "ns/web") (barePod :: webPods));
    [discriminate H|]. symmetry. exact (f_equal (default []) H).
Defined.

Lemma aggregateLoop_without_metrics (cs : Clientset) (metrics : MetricsData)
    (pods : list Pod) :
  Forall (λ pod, md_PodMetrics metrics !! p_Name pod = None) pods ->
  forall dms,
    (forall key dm, dms !! key = Some dm ->
       dm_MaxCPU dm = 0 /\ dm_MaxMemory dm = 0 /\ dm_AvgCPU dm = 0 /\ dm_AvgMemory dm = 0) ->
    exists dms',
      aggregateLoop cs metrics dms pods = Done dms'
      /\ forall key dm, dms' !! key = Some dm ->
           dm_MaxCPU dm = 0 /\ dm_MaxMemory dm = 0 /\ dm_AvgCPU dm = 0 /\ dm_AvgMemory dm = 0.
Proof.
  induction 1 as [|pod rest Hnone _ IH]; intros dms Hzero; simpl; [by exists dms|].
  destruct (aggregatePod cs metrics dms pod) as [dms1|] eqn:Hpod.
  - apply IH. clear IH.
    destruct (decide (scanOwners cs (p_Namespace pod) (p_OwnerReferences pod) = EmptyString))
      as [Hd|Hd].
    { rewrite (aggregatePod_unresolved cs metrics dms pod Hd) in Hpod.
      by injection Hpod as <-. }
    destruct (aggregatePod_step cs metrics dms dms1 pod Hd Hpod)
      as (dm' & -> & _ & _ & _ & _ & _ & _ & Hc & Hm & Havg & _).
    destruct (Havg Hnone) as [Hac Ham].
    unfold podEntries in Hc, Hm. rewrite Hnone in Hc, Hm. simpl in Hc, Hm.
    intros key dm. rewrite lookup_insert. case_decide as Hkey; [|by apply Hzero].
    intros [= <-]. rewrite Hc, Hm, Hac, Ham.
    destruct (dms !! deploymentKey _ _) as [dm0|] eqn:Hdm0; [by apply (Hzero _ _ Hdm0)|done].
  - apply aggregatePod_panics_iff in Hpod as (_ & pm & Hsome & _). congruence.
Qed.

(** X22. When no pod of the list has an entry in the snapshot, as with an
    empty snapshot, the aggregation returns a map, and every aggregate in it
    has zero maxima and zero averages; the pods are still counted (X21). *)
Theorem aggregate_without_metrics (cs : Clientset) (pods : list Pod)
    (metrics : MetricsData) :
  Forall (λ pod, md_PodMetrics metrics !! p_Name pod = None) pods ->
  exists dms,
    aggregateDeploymentMetrics cs pods metrics = Done dms
    /\ forall key dm, dms !! key = Some dm ->
         dm_MaxCPU dm = 0 /\ dm_MaxMemory dm = 0 /\ dm_AvgCPU dm = 0 /\ dm_AvgMemory dm = 0.
Proof.
  intros Hnone. apply (aggregateLoop_without_metrics cs metrics pods Hnone ∅).
  intros key dm. by rewrite lookup_empty.
Qed.

Lemma aggregate_without_metrics_witness :
  Forall (λ pod, md_PodMetrics newMetricsData !! p_Name pod = None) webPods /\
  exists dms,
    aggregateDeploymentMetrics webClientset webPods newMetricsData = Done dms
    /\ forall key dm, dms !! key = Some dm ->
         dm_MaxCPU dm = 0 /\ dm_MaxMemory dm = 0 /\ dm_AvgCPU dm = 0 /\ dm_AvgMemory dm = 0.
Proof.
  assert (Forall (λ pod, md_PodMetrics newMetricsData !! p_Name pod = None) webPods)
    as Hnone by (repeat constructor).
  split; [exact Hnone|].
  exact (aggregate_without_metrics webClientset webPods newMetricsData Hnone).
Defined.

(** X25. When the probe of the Metrics Server fails, [main] prints its two
    notices and goes on with an empty snapshot; the aggregation of any pod
    list then returns a map in which every aggregate has zero maxima and
    zero averages. *)
Theorem main_without_metrics_server (mc : MetricsClient) (cs : Clientset) (period : Z)
    (w : World) (pods : list Pod) (cause : string) :
  NodeMetricsesList mc (nodeCalls w) = Err cause ->
  let '(metrics, _, notices) := mainCollect mc period w in
  metrics = newMetricsData
  /\ notices = [WarnedCollection (MetricsServerError cause); ContinuingWithoutMetrics]
  /\ exists dms,
       aggregateDeploymentMetrics cs pods metrics = Done dms
       /\ forall key dm, dms !! key = Some dm ->
            dm_MaxCPU dm = 0 /\ dm_MaxMemory dm = 0
            /\ dm_AvgCPU dm = 0 /\ dm_AvgMemory dm = 0.
Proof.
  intros Hprobe. unfold mainCollect.
  unfold collectMetrics, checkMetricsServer, mbind, IO_bind, listNodeMetrics.
  rewrite Hprobe. simpl. split; [done|]. split; [done|].
  apply (aggregateLoop_without_metrics cs newMetricsData pods); [|by intros key dm].
  apply Forall_forall. intros pod _. apply lookup_empty.
Qed.

Lemma main_without_metrics_server_witness :
  NodeMetricsesList downClient (nodeCalls initialWorld) = Err "connection refused" /\
  (mainCollect downClient (300 * second) initialWorld).1.1 = newMetricsData /\
  exists dms,
    aggregateDeploymentMetrics webClientset webPods
      (mainCollect downClient (300 * second) initialWorld).1.1 = Done dms.
Proof.
  split; [reflexivity|].
  pose proof (main_without_metrics_server downClient webClientset (300 * second)
                initialWorld webPods "connection refused" eq_refl) as H.
  destruct (mainCollect downClient (300 * second) initialWorld) as [[metrics w'] notices].
  destruct H as (Hm & _ & dms & Hrun & _). split; [exact Hm|]. exists dms. exact Hrun.
Defined.

Lemma aggregateLoop_max_monotone (cs : Clientset) (metrics : MetricsData) (key : string)
    (pods : list Pod) :
  forall dms dms' dm,
    aggregateLoop cs metrics dms pods = Done dms' ->
    dms !! key = Some dm ->
    exists dm',
      dms' !! key = Some dm'
      /\ dm_MaxCPU dm <= dm_MaxCPU dm' /\ dm_MaxMemory dm <= dm_MaxMemory dm'.
Proof.
  induction pods as [|pod rest IH]; intros dms dms' dm; simpl.
  { intros [= <-] Hdm. exists dm. split; [done|lia]. }
  destruct (aggregatePod cs metrics dms pod) as [dms1|] eqn:Hpod; [|done].
  intros Hrest Hdm.
  assert (exists dm1, dms1 !! key = Some dm1
                      /\ dm_MaxCPU dm <= dm_MaxCPU dm1 /\ dm_MaxMemory dm <= dm_MaxMemory dm1)
    as (dm1 & Hdm1 & Hc1 & Hm1).
  { destruct (decide (scanOwners cs (p_Namespace pod) (p_OwnerReferences pod) = EmptyString))
      as [Hd|Hd].
    { rewrite (aggregatePod_unresolved cs metrics dms pod Hd) in Hpod. injection Hpod as <-.
      exists dm. split; [done|lia]. }
    destruct (aggregatePod_step cs metrics dms dms1 pod Hd Hpod)
      as (dm' & -> & _ & _ & _ & _ & _ & _ & Hc & Hm & _).
    rewrite lookup_insert. case_decide as Hkey; [|exists dm; split; [done|lia]].
    exists dm'. split; [done|]. rewrite Hkey, Hdm in Hc, Hm. cbn [default] in Hc, Hm.
    rewrite Hc, Hm. split; apply foldl_max_le. }
  destruct (IH dms1 dms' dm1 Hrest Hdm1) as (dm' & Hdm' & Hc & Hm).
  exists dm'. split; [done|lia].
Qed.

(** X23. The maxima of an aggregate dominate the maxima of every container
    entry of every member pod: a pod of the list that resolves to a key and
    has a container entry in the snapshot finds an aggregate under that key
    whose [MaxCPU] and [MaxMemory] are at least the entry's. *)
Theorem aggregate_max_bounds (cs : Clientset) (pods : list Pod) (metrics : MetricsData)
    (dms : gmap string DeploymentMetrics) (pod : Pod) (key c : string)
    (podMetrics : PodMetrics) (cm : ContainerMetrics) :
  aggregateDeploymentMetrics cs pods metrics = Done dms ->
  pod ∈ pods ->
  resolvesTo cs key pod ->
  md_PodMetrics metrics !! p_Name pod = Some podMetrics ->
  pm_Containers podMetrics !! c = Some cm ->
  exists dm,
    dms !! key = Some dm
    /\ cm_MaxCPU cm <= dm_MaxCPU dm /\ cm_MaxMemory cm <= dm_MaxMemory dm.
Proof.
  unfold aggregateDeploymentMetrics. intros Hrun Hin [Hd Hkey] Hpm Hcm.
  assert (cm ∈ podEntries metrics pod) as Hentry.
  { unfold podEntries. rewrite Hpm. apply list_elem_of_fmap. exists (c, cm).
    split; [done|]. by apply elem_of_map_to_list. }
  revert Hrun. generalize (∅ : gmap string DeploymentMetrics).
  induction pods as [|pod0 rest IH]; intros dms0; [by apply elem_of_nil in Hin|].
  simpl. destruct (aggregatePod cs metrics dms0 pod0) as [dms1|] eqn:Hpod; [|done].
  intros Hrest. apply elem_of_cons in Hin as [<-|Hin]; [|by apply (IH Hin dms1)].
  destruct (aggregatePod_step cs metrics dms0 dms1 pod Hd Hpod)
    as (dm1 & -> & _ & _ & _ & _ & _ & _ & Hc & Hm & _).
  rewrite Hkey in *.
  destruct (aggregateLoop_max_monotone cs metrics key rest _ dms dm1 Hrest
              (lookup_insert_eq _ _ _)) as (dm & Hdm & Hcle & Hmle).
  exists dm. split; [done|].
  assert (cm_MaxCPU cm <= dm_MaxCPU dm1).
  { rewrite Hc. apply foldl_max_ge, list_elem_of_fmap. by exists cm. }
  assert (cm_MaxMemory cm <= dm_MaxMemory dm1).
  { rewrite Hm. apply foldl_max_ge, list_elem_of_fmap. by exists cm. }
  lia.
Qed.

Lemma aggregate_max_bounds_witness :
  aggregateDeploymentMetrics webClientset webPods webSnapshot =
    Done {[ "ns/web" :=
              mkDeploymentMetrics "web" "ns" ["web-1"; "web-2"; "web-3"]
                200 (60 * Mi) 150 (40 * Mi) 3 1 [] ]} /\
  exists dm,
    ({[ "ns/web" :=
          mkDeploymentMetrics "web" "ns" ["web-1"; "web-2"; "web-3"]
            200 (60 * Mi) 150 (40 * Mi) 3 1 [] ]} : gmap string DeploymentMetrics)
      !! "ns/web" = Some dm
    /\ 100 <= dm_MaxCPU dm /\ 50 * Mi <= dm_MaxMemory dm.
Proof.
  assert (aggregateDeploymentMetrics webClientset webPods webSnapshot =
          Done {[ "ns/web" :=
                    mkDeploymentMetrics "web" "ns" ["web-1"; "web-2"; "web-3"]
                      200 (60 * Mi) 150 (40 * Mi) 3 1 [] ]}) as Hrun
    by (vm_compute; reflexivity).
  split; [exact Hrun|].
  apply (aggregate_max_bounds webClientset webPods webSnapshot _
           (webPod "web-1" [mkContainer "app" (limits 500 (64 * Mi))]) "ns/web" "app"
           (mkPodMetrics 0 0 "ns" {["app" := mkContainerMetrics 100 (50 * Mi)]})
           (mkContainerMetrics 100 (50 * Mi)) Hrun).
  - apply elem_of_cons. by left.
  - split; [vm_compute; discriminate|vm_compute; reflexivity].
  - vm_compute. reflexivity.
  - apply lookup_singleton_eq.
Defined.

Lemma aggregateLoop_average_kept (cs : Clientset) (metrics : MetricsData) (key : string)
    (pods : list Pod) :
  Forall (λ q, resolvesTo cs key q -> md_PodMetrics metrics !! p_Name q = None) pods ->
  forall dms dms' dm,
    aggregateLoop cs metrics dms pods = Done dms' ->
    dms !! key = Some dm ->
    exists dm',
      dms' !! key = Some dm'
      /\ dm_AvgCPU dm' = dm_AvgCPU dm /\ dm_AvgMemory dm' = dm_AvgMemory dm.
Proof.
  induction 1 as [|pod rest Hpod0 _ IH]; intros dms dms' dm; simpl.
  { intros [= <-] Hdm. by exists dm. }
  destruct (aggregatePod cs metrics dms pod) as [dms1|] eqn:Hpod; [|done].
  intros Hrest Hdm.
  assert (exists dm1, dms1 !! key = Some dm1
                      /\ dm_AvgCPU dm1 = dm_AvgCPU dm /\ dm_AvgMemory dm1 = dm_AvgMemory dm)
    as (dm1 & Hdm1 & Hc1 & Hm1).
  { destruct (decide (scanOwners cs (p_Namespace pod) (p_OwnerReferences pod) = EmptyString))
      as [Hd|Hd].
    { rewrite (aggregatePod_unresolved cs metrics dms pod Hd) in Hpod. injection Hpod as <-.
      by exists dm. }
    destruct (aggregatePod_step cs metrics dms dms1 pod Hd Hpod)
      as (dm' & -> & _ & _ & _ & _ & _ & _ & _ & _ & Havg & _).
    rewrite lookup_insert. case_decide as Hkey; [|by exists dm].
    exists dm'. split; [done|]. rewrite Hkey, Hdm in Havg. cbn [default] in Havg.
    apply Havg, Hpod0. by split. }
  destruct (IH dms1 dms' dm1 Hrest Hdm1) as (dm' & Hdm' & Hc & Hm).
  exists dm'. split; [done|]. split; congruence.
Qed.

(** X24. The averages of an aggregate are those of one pod: the last pod
    of the list, among those that resolve to its key, that has an entry in
    the snapshot. They are the wrapped sums of that entry's container maxima
    divided by the number of its containers; the entries of the other member
    pods do not enter them. *)
Theorem aggregate_average_of_last (cs : Clientset) (metrics : MetricsData)
    (before after : list Pod) (pod : Pod) (key : string) (podMetrics : PodMetrics)
    (dms : gmap string DeploymentMetrics) :
  aggregateDeploymentMetrics cs (before ++ pod :: after) metrics = Done dms ->
  resolvesTo cs key pod ->
  md_PodMetrics metrics !! p_Name pod = Some podMetrics ->
  Forall (λ q, resolvesTo cs key q -> md_PodMetrics metrics !! p_Name q = None) after ->
  exists dm,
    dms !! key = Some dm
    /\ (dm_AvgCPU dm, dm_AvgMemory dm) = entryAverage podMetrics.
Proof.
  unfold aggregateDeploymentMetrics. rewrite aggregateLoop_app.
  destruct (aggregateLoop cs metrics ∅ before) as [dms0|]; [|done]. simpl.
  destruct (aggregatePod cs metrics dms0 pod) as [dms1|] eqn:Hpod; [|done].
  intros Hrest [Hd Hkey] Hpm Hafter.
  destruct (aggregatePod_step cs metrics dms0 dms1 pod Hd Hpod)
    as (dm1 & -> & _ & _ & _ & _ & _ & _ & _ & _ & _ & Havg).
  rewrite Hkey in *. specialize (Havg podMetrics Hpm).
  destruct (aggregateLoop_average_kept cs metrics key after Hafter _ dms dm1 Hrest
              (lookup_insert_eq _ _ _)) as (dm & Hdm & Hc & Hm).
  exists dm. split; [done|]. by rewrite Hc, Hm.
Qed.

Lemma aggregate_average_of_last_witness :
  aggregateDeploymentMetrics webClientset (take 2 webPods ++ [webPod "web-3" [mkContainer "app" (limits 500 (64 * Mi))]]) webSnapshot =
    Done {[ "ns/web" :=
              mkDeploymentMetrics "web" "ns" ["web-1"; "web-2"; "web-3"]
                200 (60 * Mi) 150 (40 * Mi) 3 1 [] ]} /\
  entryAverage (mkPodMetrics 0 0 "ns" {["app" := mkContainerMetrics 150 (40 * Mi)]})
    = (150, 40 * Mi).
Proof.
  assert (aggregateDeploymentMetrics webClientset
            (take 2 webPods ++ [webPod "web-3" [mkContainer "app" (limits 500 (64 * Mi))]])
            webSnapshot =
          Done {[ "ns/web" :=
                    mkDeploymentMetrics "web" "ns" ["web-1"; "web-2"; "web-3"]
                      200 (60 * Mi) 150 (40 * Mi) 3 1 [] ]}) as Hrun
    by (vm_compute; reflexivity).
  split; [exact Hrun|].
  destruct (aggregate_average_of_last webClientset webSnapshot (take 2 webPods) []
              (webPod "web-3" [mkContainer "app" (limits 500 (64 * Mi))]) "ns/web"
              (mkPodMetrics 0 0 "ns" {["app" := mkContainerMetrics 150 (40 * Mi)]}) _ Hrun)
    as (dm & Hdm & Havg).
  - split; [vm_compute; discriminate|vm_compute; reflexivity].
  - vm_compute. reflexivity.
  - constructor.
  - rewrite lookup_singleton_eq in Hdm. injection Hdm as <-. symmetry. exact Havg.
Defined.

(** ** File names: some context names *)

Example sanitizeFilename_arn :
  sanitizeFilename "arn:aws:eks:us-east-1:123456:cluster/prod" =
    "arn-aws-eks-us-east-1-123456-cluster-prod".
Proof. vm_compute. reflexivity. Qed.

(** Each of the two-byte runes of this name becomes one hyphen; the hyphens
    at the ends are trimmed. *)
Example sanitizeFilename_runes :
  sanitizeFilename "--são paulo--é" = "s-o-paulo"
  /\ replaceUnsafe "são" = "s-o"
  /\ String.length "são" = 4%nat.
Proof. vm_compute. repeat split. Qed.

Example sanitizeFilename_punctuation : sanitizeFilename ":::" = EmptyString.
Proof. vm_compute. reflexivity. Qed.

(** ** The snapshot is keyed by pod name: what the aggregator charges *)

Lemma usagesOf_subset (c : string) (l : list ContainerUsage) (f : ContainerUsage -> Z) (x : Z) :
  x ∈ f <$> usagesOf c l -> x ∈ f <$> l.
Proof.
  intros (u & -> & Hu)%list_elem_of_fmap. apply list_elem_of_fmap. exists u.
  split; [done|]. unfold usagesOf in Hu. by apply list_elem_of_filter in Hu as [_ ?].
Qed.

(** The entries made from a batch of usages: each holds zero or one of the
    figures of the batch, and each usage is covered by an entry. *)
Lemma observed_entries_values (l : list ContainerUsage) (cm : ContainerMetrics) :
  cm ∈ (map_to_list (foldl observeContainer ∅ l)).*2 ->
  (cm_MaxCPU cm = 0 \/ cm_MaxCPU cm ∈ cu_Cpu <$> l)
  /\ (cm_MaxMemory cm = 0 \/ cm_MaxMemory cm ∈ cu_Memory <$> l).
Proof.
  intros ([c cm'] & -> & Hin)%list_elem_of_fmap. apply elem_of_map_to_list in Hin.
  rewrite foldl_observeContainer_lookup, lookup_empty in Hin.
  destruct (usagesOf c l) as [|u us] eqn:Hus; [done|].
  assert (cm' = mkContainerMetrics (foldl Z.max 0 (cu_Cpu <$> u :: us))
                                   (foldl Z.max 0 (cu_Memory <$> u :: us))) as ->
    by (injection Hin as <-; reflexivity).
  cbn [snd cm_MaxCPU cm_MaxMemory]. rewrite <- Hus. split.
  - destruct (foldl_max_in (cu_Cpu <$> usagesOf c l) 0) as [->|Hmax]; [by left|].
    right. by apply (usagesOf_subset c).
  - destruct (foldl_max_in (cu_Memory <$> usagesOf c l) 0) as [->|Hmax]; [by left|].
    right. by apply (usagesOf_subset c).
Qed.

Lemma observed_entries_cover (l : list ContainerUsage) (u : ContainerUsage) :
  u ∈ l ->
  exists cm,
    cm ∈ (map_to_list (foldl observeContainer ∅ l)).*2
    /\ cu_Cpu u <= cm_MaxCPU cm /\ cu_Memory u <= cm_MaxMemory cm
    /\ 0 <= cm_MaxCPU cm /\ 0 <= cm_MaxMemory cm.
Proof.
  intros Hu.
  pose proof (foldl_observeContainer_lookup l (cu_Name u) ∅) as Hl.
  rewrite lookup_empty in Hl.
  assert (u ∈ usagesOf (cu_Name u) l) as Hus by (by apply list_elem_of_filter).
  destruct (usagesOf (cu_Name u) l) as [|x xs] eqn:Heq; [by apply elem_of_nil in Hus|].
  rewrite <- Heq in Hl, Hus. cbn [default cm_MaxCPU cm_MaxMemory] in Hl.
  eexists. split.
  { apply list_elem_of_fmap. eexists (cu_Name u, _). split; [reflexivity|].
    apply elem_of_map_to_list. exact Hl. }
  cbn [cm_MaxCPU cm_MaxMemory]. repeat split; try apply foldl_max_le;
    apply foldl_max_ge, list_elem_of_fmap; by exists u.
Qed.

(** The maximum the aggregator reaches on such entries: the greatest of the
    aggregate's earlier maximum, zero, and the figures of the batch. *)
Lemma charged_maximum (old : Z) (l : list ContainerUsage)
    (f : ContainerUsage -> Z) (g : ContainerMetrics -> Z) :
  l <> [] ->
  (forall cm, cm ∈ (map_to_list (foldl observeContainer ∅ l)).*2 ->
              g cm = 0 \/ g cm ∈ f <$> l) ->
  (forall u, u ∈ l ->
             exists cm, cm ∈ (map_to_list (foldl observeContainer ∅ l)).*2
                        /\ f u <= g cm /\ 0 <= g cm) ->
  isMaximum (foldl Z.max old (g <$> (map_to_list (foldl observeContainer ∅ l)).*2))
            (old :: 0 :: (f <$> l)).
Proof.
  intros Hne Hvalues Hcover.
  set (entries := (map_to_list (foldl observeContainer ∅ l)).*2) in *. split.
  - destruct (foldl_max_in (g <$> entries) old) as [->|Hin].
    { apply elem_of_cons. by left. }
    apply elem_of_cons. right.
    apply list_elem_of_fmap in Hin as (cm & -> & Hcm).
    destruct (Hvalues cm Hcm) as [->|Hv]; apply elem_of_cons; [by left|by right].
  - intros x [->|[->|Hx]%elem_of_cons]%elem_of_cons.
    + apply foldl_max_le.
    + destruct l as [|u l']; [done|].
      destruct (Hcover u ltac:(apply elem_of_cons; by left)) as (cm & Hcm & _ & H0).
      assert (g cm <= foldl Z.max old (g <$> entries))
        by (apply foldl_max_ge, list_elem_of_fmap; by exists cm).
      lia.
    + apply list_elem_of_fmap in Hx as (u & -> & Hu).
      destruct (Hcover u Hu) as (cm & Hcm & Hle & _).
      assert (g cm <= foldl Z.max old (g <$> entries))
        by (apply foldl_max_ge, list_elem_of_fmap; by exists cm).
      lia.
Qed.

(** C10. Two pod items with the same name, whatever their namespaces, share
    one entry of the snapshot: it is stored under the name, carries the
    namespace of the item observed first, and holds the maxima of the
    containers of both. The aggregator looks the entry up by the pod's name
    only: a pod of that name that resolves to a deployment, in whichever
    namespace it is, has the shared entry folded into the aggregate of its own
    deployment, whose maxima become the greatest of their earlier value, zero
    and the figures of both items, and whose averages become those of the
    shared entry. *)
Theorem pod_usage_keyed_by_name (pods : gmap string PodMetrics) (a b : PodMetricsItem) :
  pi_Name a = pi_Name b ->
  pods !! pi_Name a = None ->
  let shared :=
    mkPodMetrics 0 0 (pi_Namespace a)
      (foldl observeContainer ∅ (pi_Containers a ++ pi_Containers b)) in
  let pods' := foldl observePod pods [a; b] in
  pods' !! pi_Name a = Some shared
  /\ dom pods' = {[pi_Name a]} ∪ dom pods
  /\ (forall (cs : Clientset) (nodes : gmap string NodeMetrics)
             (dms : gmap string DeploymentMetrics) (pod : Pod) (d : string),
        p_Name pod = pi_Name a ->
        scanOwners cs (p_Namespace pod) (p_OwnerReferences pod) = d ->
        d <> EmptyString ->
        let key := deploymentKey (p_Namespace pod) d in
        let dm := countPod (default (newDeploymentMetrics d (p_Namespace pod)) (dms !! key))
                    pod in
        aggregatePod cs (mkMetricsData pods' nodes) dms pod =
          match foldPodUsage dm shared with
          | Done dm' => Done (<[key := dm']> dms)
          | Panic => Panic
          end)
  /\ (forall (cs : Clientset) (nodes : gmap string NodeMetrics)
             (dms : gmap string DeploymentMetrics) (pod : Pod) (d : string),
        p_Name pod = pi_Name a ->
        scanOwners cs (p_Namespace pod) (p_OwnerReferences pod) = d ->
        d <> EmptyString ->
        pi_Containers a ++ pi_Containers b <> [] ->
        let key := deploymentKey (p_Namespace pod) d in
        let dm0 := default (newDeploymentMetrics d (p_Namespace pod)) (dms !! key) in
        exists dm',
          aggregatePod cs (mkMetricsData pods' nodes) dms pod = Done (<[key := dm']> dms)
          /\ isMaximum (dm_MaxCPU dm')
               (dm_MaxCPU dm0 :: 0 :: (cu_Cpu <$> pi_Containers a ++ pi_Containers b))
          /\ isMaximum (dm_MaxMemory dm')
               (dm_MaxMemory dm0 :: 0 :: (cu_Memory <$> pi_Containers a ++ pi_Containers b))
          /\ (dm_AvgCPU dm', dm_AvgMemory dm') = entryAverage shared).
Proof.
  intros Hname Hfresh shared pods'.
  assert (pods' !! pi_Name a = Some shared) as Hshared.
  { subst pods' shared. rewrite foldl_observePod_lookup. unfold itemsOf.
    rewrite filter_cons, decide_True by done.
    rewrite filter_cons, decide_True by done.
    rewrite filter_nil, Hfresh. simpl. by rewrite app_nil_r. }
  split; [exact Hshared|]. split; [|split].
  - subst pods'. simpl. unfold observePod. rewrite !dom_insert_L, Hname.
    by rewrite (assoc_L (∪)), (idemp_L (∪)).
  - intros cs nodes dms pod d Hpod Hd Hne key dm.
    unfold aggregatePod, getDeploymentForPod. rewrite Hd, decide_False by done.
    cbn [md_PodMetrics]. rewrite Hpod, Hshared. reflexivity.
  - intros cs nodes dms pod d Hpod Hd Hne Hl key dm0.
    set (l := pi_Containers a ++ pi_Containers b) in *.
    set (metrics := mkMetricsData pods' nodes).
    assert (md_PodMetrics metrics !! p_Name pod = Some shared) as Hentry
      by (by rewrite Hpod).
    assert (cm_entries :
              podEntries metrics pod = (map_to_list (foldl observeContainer ∅ l)).*2).
    { unfold podEntries. by rewrite Hentry. }
    destruct (aggregatePod cs metrics dms pod) as [dms'|] eqn:Hrun.
    2:{ apply aggregatePod_panics_iff in Hrun as (_ & pm & Hpm & Hempty).
        rewrite Hentry in Hpm. injection Hpm as <-. subst shared. cbn [pm_Containers] in Hempty.
        destruct l as [|u l'] eqn:Heq; [done|].
        destruct (observed_entries_cover (u :: l') u ltac:(apply elem_of_cons; by left))
          as (cm & Hcm & _).
        rewrite Hempty, map_to_list_empty in Hcm. by apply elem_of_nil in Hcm. }
    subst d.
    destruct (aggregatePod_step cs metrics dms dms' pod Hne Hrun)
      as (dm' & -> & _ & _ & _ & _ & _ & _ & Hc & Hm & _ & Havg).
    exists dm'. split; [reflexivity|]. fold key dm0 in Hc, Hm.
    rewrite cm_entries in Hc, Hm. rewrite Hc, Hm.
    split; [|split; [|by apply Havg]].
    + apply charged_maximum; [done| |].
      * intros cm Hcm. by destruct (observed_entries_values l cm Hcm).
      * intros u Hu. destruct (observed_entries_cover l u Hu) as (cm & ? & ? & ? & ? & ?).
        by exists cm.
    + apply charged_maximum; [done| |].
      * intros cm Hcm. by destruct (observed_entries_values l cm Hcm).
      * intros u Hu. destruct (observed_entries_cover l u Hu) as (cm & ? & ? & ? & ? & ?).
        by exists cm.
Qed.

Lemma pod_usage_keyed_by_name_witness :
  pi_Name blueItem = pi_Name greenItem /\
  (∅ : gmap string PodMetrics) !! pi_Name blueItem = None /\
  foldl observePod ∅ [blueItem; greenItem] !! "api-0" =
    Some (mkPodMetrics 0 0 "blue" {["app" := mkContainerMetrics 300 (20 * Mi)]}) /\
  exists dmBlue dmGreen,
    aggregatePod webClientset (mkMetricsData (foldl observePod ∅ [blueItem; greenItem]) ∅)
      ∅ bluePod = Done (<["blue/web" := dmBlue]> ∅)
    /\ dm_MaxCPU dmBlue = 300 /\ dm_MaxMemory dmBlue = 20 * Mi
    /\ aggregatePod webClientset (mkMetricsData (foldl observePod ∅ [blueItem; greenItem]) ∅)
         ∅ greenPod = Done (<["green/web" := dmGreen]> ∅)
    /\ dm_MaxCPU dmGreen = 300 /\ dm_MaxMemory dmGreen = 20 * Mi.
Proof.
  split; [reflexivity|]. split; [reflexivity|].
  destruct (pod_usage_keyed_by_name ∅ blueItem greenItem eq_refl (lookup_empty _))
    as (Hshared & _ & _ & Hcharge).
  split; [etransitivity; [exact Hshared|vm_compute; reflexivity]|].
  destruct (Hcharge webClientset ∅ ∅ bluePod "web" eq_refl eq_refl
              ltac:(discriminate) ltac:(discriminate))
    as (dmBlue & HrunB & [HinB HubB] & [HinBm HubBm] & _).
  destruct (Hcharge webClientset ∅ ∅ greenPod "web" eq_refl eq_refl
              ltac:(discriminate) ltac:(discriminate))
    as (dmGreen & HrunG & [HinG HubG] & [HinGm HubGm] & _).
  exists dmBlue, dmGreen.
  simpl in HinB, HinBm, HinG, HinGm, HubB, HubBm, HubG, HubGm.
  rewrite !elem_of_cons, elem_of_nil, lookup_empty in HinB, HinBm, HinG, HinGm.
  cbn [default newDeploymentMetrics dm_MaxCPU dm_MaxMemory] in HinB, HinBm, HinG, HinGm.
  pose proof (HubB 300 ltac:(rewrite !elem_of_cons; auto)).
  pose proof (HubBm (20 * Mi) ltac:(rewrite !elem_of_cons; auto)).
  pose proof (HubG 300 ltac:(rewrite !elem_of_cons; auto)).
  pose proof (HubGm (20 * Mi) ltac:(rewrite !elem_of_cons; auto)).
  unfold Mi in *.
  split; [exact HrunB|]. split; [lia|]. split; [lia|].
  split; [exact HrunG|]. split; lia.
Defined.
